(** * effect-jmap: the session cache and the request dispatcher

    A shallow embedding of [src/core/JMAPClient.ts], [src/core/Errors.ts],
    [src/core/Types.ts] and [src/core/ResponseUtils.ts]
    ([extractMethodResponse]), and the properties of batching, session
    caching and response extraction proved about it.

    Conventions of the embedding:
    - an [Effect] is a function from the client state to an [Exit] and a new
      client state; the client state holds the closure variable
      [sessionState], the outside world (HTTP server and clock) and the list
      of requests handed to the HTTP client so far;
    - JavaScript numbers that the client handles (HTTP status, milliseconds,
      batch size) are integers, in [Z];
    - what the platform provides ([JSON.parse], [JSON.stringify], the HTTP
      client, the clock, [Schema.decodeUnknown] of the two envelope shapes)
      is a [Runtime] record that every operation takes. *)

From Stdlib Require Import String Ascii ZArith List Bool Lia DecimalString.
Import ListNotations.
Open Scope string_scope.
Open Scope list_scope.
Open Scope Z_scope.
Set Warnings "-register-all".

(* ================================================================== *)
(** ** JSON values and JavaScript property access *)

(** A value produced by [JSON.parse]. The members of an object are kept in
    the order of the text; for a repeated key the last member is the one a
    property read sees. *)
Inductive json : Type :=
| JNull
| JBool (b : bool)
| JNum (n : Z)
| JStr (s : string)
| JArr (items : list json)
| JObj (members : list (string * json)).

(** Error objects of the platform. The string is the text the object renders
    to in a template literal. *)
Inductive JsError : Type :=
| HttpClientError (text : string)
| SyntaxError (text : string)
| ParseError (text : string)
| TypeError (text : string).

Definition render (e : JsError) : string :=
  match e with
  | HttpClientError t | SyntaxError t | ParseError t | TypeError t => t
  end.

Fixpoint lookup_member (key : string) (members : list (string * json))
  : option json :=
  match members with
  | [] => None
  | (k, v) :: rest =>
      match lookup_member key rest with
      | Some later => Some later
      | None => if String.eqb k key then Some v else None
      end
  end.

(** [value.key] for a key that no prototype defines ([type], [description],
    [details]): [inr None] is [undefined]; reading a property of [null]
    throws. *)
Definition js_get (value : json) (key : string) : JsError + option json :=
  match value with
  | JNull =>
      inl (TypeError ("Cannot read properties of null (reading '"
                        ++ key ++ "')")%string)
  | JObj members => inr (lookup_member key members)
  | _ => inr None
  end.

(** [!array]: an array object is truthy, also when it is empty, so that the
    guard [!response.methodResponses] is never taken on a [Response]. *)
Definition js_not_array {A : Type} (a : list A) : bool := false.

(** [number.toString()] on an integer. *)
Definition Z_toString (z : Z) : string := NilZero.string_of_int (Z.to_int z).

(** [Array.prototype.slice(start, end)]: negative positions count from the
    end, and both are clamped to the array. *)
Definition js_slice {A : Type} (a : list A) (start stop : Z) : list A :=
  let len := Z.of_nat (length a) in
  let k := if start <? 0 then Z.max (len + start) 0 else Z.min start len in
  let final := if stop <? 0 then Z.max (len + stop) 0 else Z.min stop len in
  firstn (Z.to_nat (Z.max (final - k) 0)) (skipn (Z.to_nat k) a).

(* ================================================================== *)
(** ** Types.ts *)

(** [Session]: the nested records are kept as decoded JSON. *)
Record Session : Type := {
  capabilities : json;
  accounts : json;
  primaryAccounts : json;
  username : string;
  apiUrl : string;
  downloadUrl : string;
  uploadUrl : string;
  eventSourceUrl : string;
  state : string
}.

(** [Invocation] and [MethodResponse]: method name, payload, call id. *)
Definition Invocation : Type := string * json * string.
Definition MethodResponse : Type := string * json * string.

Record Request : Type := {
  using_ : list string;
  methodCalls : list Invocation;
  req_createdIds : option (list (string * string))
}.

Record Response : Type := {
  methodResponses : list MethodResponse;
  createdIds : option (list (string * string));
  sessionState : string
}.

(* ================================================================== *)
(** ** Errors.ts *)

(** [JMAPMethodError]: each field is absent ([None]) or holds the value that
    was copied into it. *)
Record JMAPMethodError : Type := {
  type : option json;
  description : option json;
  details : option json;
  callId : option string
}.

Inductive JMAPError : Type :=
| NetworkError (message : string) (cause : option JsError)
               (status : option Z)
| AuthenticationError (message : string) (details : option JsError)
| SessionError (message : string) (details : option JsError)
| MethodError (e : JMAPMethodError).

(** [JMAPMethodError.fromMethodError(error, callId)]. The argument has the
    static type [MethodError] but is whatever value the caller passes. *)
Definition fromMethodError (error : json) (callId : option string)
  : JsError + JMAPMethodError :=
  match js_get error "type" with
  | inl thrown => inl thrown
  | inr ty =>
      match js_get error "description" with
      | inl thrown => inl thrown
      | inr descr =>
          match js_get error "details" with
          | inl thrown => inl thrown
          | inr det =>
              inr {| type := ty; description := descr; details := det;
                     callId := callId |}
          end
      end
  end.

Module Errors.
Definition network (message : string) (cause : option JsError)
  (status : option Z) : JMAPError := NetworkError message cause status.
Definition authentication (message : string) (details : option JsError)
  : JMAPError := AuthenticationError message details.
Definition session (message : string) (details : option JsError)
  : JMAPError := SessionError message details.
End Errors.

(** The kind of an error, as the taxonomy of the client names it. *)
Inductive ErrorKind : Type :=
| KNetwork | KAuthentication | KSession | KMethod.

Definition kind_of (e : JMAPError) : ErrorKind :=
  match e with
  | NetworkError _ _ _ => KNetwork
  | AuthenticationError _ _ => KAuthentication
  | SessionError _ _ => KSession
  | MethodError _ => KMethod
  end.

(* ================================================================== *)
(** ** The HTTP client and the platform *)

Inductive HttpMethod : Type := GET | POST.

Record HttpBody : Type := {
  body_text : string;
  body_contentType : option string
}.

(** [HttpBody.text(body)]: the call gives no content type of its own (the
    platform then labels the body as plain text). *)
Definition HttpBody_text (body : string) : HttpBody :=
  {| body_text := body; body_contentType := None |}.

(** A request as the client builds it. [headers] are the headers given to
    [setHeaders]; what [setBody] derives from the body (its content type
    and its length) is not recorded. *)
Record HttpClientRequest : Type := {
  http_method : HttpMethod;
  url : string;
  headers : list (string * string);
  urlParams : list (string * string);
  body : option HttpBody
}.

(** A received response: its status and the outcome of reading its body. *)
Record HttpClientResponse : Type := {
  http_status : Z;
  text : JsError + string
}.

Record Runtime : Type := {
  World : Type;
  (** one attempt of [httpClient.execute]: a transport failure or a
      response *)
  execute : HttpClientRequest -> World ->
            (JsError + HttpClientResponse) * World;
  (** [Date.now()], in milliseconds *)
  now : World -> Z;
  (** the passing of a delay between two attempts *)
  sleep : Z -> World -> World;
  JSON_parse : string -> JsError + json;
  JSON_stringify : Request -> string;
  decodeUnknown_Session : json -> JsError + Session;
  decodeUnknown_Response : json -> JsError + Response
}.

(** One attempt of an HTTP exchange: [attempt] is 0 for the first attempt and
    counts the retries after it. *)
Record HttpEvent : Type := {
  ev_request : HttpClientRequest;
  ev_attempt : nat
}.

(* ================================================================== *)
(** ** Effects *)

(** The outcome of running an effect: a value, a failure in the error
    channel, or a defect (an exception thrown by the code of a generator). *)
Inductive Exit (A : Type) : Type :=
| Success (a : A)
| Failure (e : JMAPError)
| Die (defect : JsError).
Arguments Success {A} a.
Arguments Failure {A} e.
Arguments Die {A} defect.

(** [Effect.fail(JMAPMethodError.fromMethodError(..))]: an exception thrown
    while the error is built is a defect. *)
Definition fail_fromMethodError {A : Type} (error : json)
  (callId : option string) : Exit A :=
  match fromMethodError error callId with
  | inl thrown => Die thrown
  | inr e => Failure (MethodError e)
  end.

(** [interface SessionState] of JMAPClient.ts. *)
Record SessionState : Type := {
  session : Session;
  lastUpdated : Z
}.

Record JMAPClientConfig : Type := {
  sessionUrl : string;
  bearerToken : string;
  userAgent : option string;
  timeout : option Z;
  maxRetries : option Z;
  retryDelay : option Z;
  maxBatchSize : option Z;
  enableRequestLogging : option bool
}.

(** [a ?? b] *)
Definition nullish {A : Type} (a : option A) (b : A) : A :=
  match a with Some v => v | None => b end.
Infix "??" := nullish (at level 45, no associativity).

(* ================================================================== *)
(** ** JMAPClient.ts: [makeJMAPClientLive] *)

Module JMAPClient.

Section Client.

Variable R : Runtime.
Variable config : JMAPClientConfig.

(** The state an effect of the client runs on: the closure variable
    [sessionState] (named [cache] here, [sessionState] being the field of
    [Response]), the world, and the attempts made on the HTTP client. *)
Record ClientState : Type := {
  cache : option SessionState;
  world : World R;
  trace : list HttpEvent
}.

Definition Effect (A : Type) : Type := ClientState -> Exit A * ClientState.

Definition succeed {A : Type} (a : A) : Effect A := fun s => (Success a, s).
Definition fail {A : Type} (e : JMAPError) : Effect A :=
  fun s => (Failure e, s).
Definition bind {A B : Type} (m : Effect A) (k : A -> Effect B) : Effect B :=
  fun s =>
    match m s with
    | (Success a, s') => k a s'
    | (Failure e, s') => (Failure e, s')
    | (Die d, s') => (Die d, s')
    end.
(** lifting of a finished [Exit] *)
Definition done {A : Type} (x : Exit A) : Effect A := fun s => (x, s).

Notation "x <- m ;; k" := (bind m (fun x => k))
  (at level 61, m at next level, right associativity).
Notation "m ;;; k" := (bind m (fun _ => k))
  (at level 61, right associativity).

(** [sessionState = v] *)
Definition set_cache (v : option SessionState) : Effect unit :=
  fun s => (Success tt,
            {| cache := v; world := world s; trace := trace s |}).

Definition defaultHeaders : list (string * string) :=
  [ ("Content-Type", "application/json");
    ("Authorization", "Bearer " ++ bearerToken config);
    ("User-Agent", userAgent config ?? "effect-jmap/0.1.0") ]%string.

(** [config.timeout ? setUrlParam('timeout', ..) : (req) => req] *)
Definition with_timeout (req : HttpClientRequest) : HttpClientRequest :=
  match timeout config with
  | Some t =>
      if t =? 0 then req
      else {| http_method := http_method req; url := url req;
              headers := headers req;
              urlParams := urlParams req ++ [("timeout", Z_toString t)]%string;
              body := body req |}
  | None => req
  end.

(** [Effect.log] writes to a logger that the state does not hold. *)
Definition logRequest (message : string) : Effect unit :=
  if enableRequestLogging config ?? false then succeed tt else succeed tt.

(** [httpClient.execute(request).pipe(Effect.retry(retrySchedule))]: the
    schedule is [exponential(retryDelay ?? 1000)] intersected with
    [recurs(maxRetries ?? 3)], so that a transport failure is followed by a
    delay that doubles and by another attempt, [recurs] times at most. *)
Fixpoint execute_retry (recurs attempt : nat) (delay : Z)
  (request : HttpClientRequest) (w : World R) (tr : list HttpEvent)
  : (JsError + HttpClientResponse) * World R * list HttpEvent :=
  let '(result, w1) := execute R request w in
  let tr1 := tr ++ [{| ev_request := request; ev_attempt := attempt |}] in
  match result with
  | inr response => (inr response, w1, tr1)
  | inl error =>
      match recurs with
      | O => (inl error, w1, tr1)
      | S n =>
          execute_retry n (S attempt) (delay * 2) request
            (sleep R delay w1) tr1
      end
  end.

(** The retried exchange with its [Effect.catchAll]: what is left of a
    transport failure is a network error with the given message. *)
Definition exchange (request : HttpClientRequest) (message : string)
  : Effect HttpClientResponse :=
  fun s =>
    let '(result, w1, tr1) :=
      execute_retry (Z.to_nat (maxRetries config ?? 3)) 0
        (retryDelay config ?? 1000) request (world s) (trace s) in
    let s1 := {| cache := cache s; world := w1; trace := tr1 |} in
    match result with
    | inr response => (Success response, s1)
    | inl error => (Failure (Errors.network message (Some error) None), s1)
    end.

(** [response.text] with its [Effect.catchAll]. *)
Definition read_text (response : HttpClientResponse) : Effect string :=
  match text response with
  | inr jsonText => succeed jsonText
  | inl _ => fail (Errors.network "Failed to read response body" None None)
  end.

Definition sessionRequest : HttpClientRequest :=
  with_timeout
    {| http_method := GET; url := sessionUrl config;
       headers := defaultHeaders; urlParams := []; body := None |}.

Definition fetchSession : Effect Session :=
  logRequest "Fetching JMAP session" ;;;
  response <- exchange sessionRequest "Failed to connect to JMAP server" ;;
  if http_status response =? 401 then
    fail (Errors.authentication "Invalid bearer token" None)
  else if negb (http_status response =? 200) then
    fail (Errors.network ("HTTP " ++ Z_toString (http_status response))
            None (Some (http_status response)))
  else
    jsonText <- read_text response ;;
    match JSON_parse R jsonText with
    | inl error =>
        fail (Errors.network "Invalid JSON response" (Some error) None)
    | inr jsonData =>
        match decodeUnknown_Session R jsonData with
        | inl error =>
            fail (Errors.session "Invalid session response format"
                    (Some error))
        | inr session =>
            fun s =>
              (Success session,
               {| cache := Some {| session := session;
                                   lastUpdated := now R (world s) |};
                  world := world s; trace := trace s |})
        end
    end.

Definition getSession : Effect Session :=
  fun s =>
    match cache s with
    | None => fetchSession s
    | Some st =>
        (* Refresh session if older than 5 minutes *)
        let fiveMinutesAgo := now R (world s) - 5 * 60 * 1000 in
        if lastUpdated st <? fiveMinutesAgo then fetchSession s
        else (Success (session st), s)
    end.

(** The scan of [jmapResponse.methodResponses] for method errors. *)
Fixpoint check_method_errors (responses : list MethodResponse) : Exit unit :=
  match responses with
  | [] => Success tt
  | (methodName, result, callId) :: rest =>
      if String.eqb methodName "error" then
        fail_fromMethodError result (Some callId)
      else check_method_errors rest
  end.

Definition apiRequest (session : Session) (request : Request)
  : HttpClientRequest :=
  with_timeout
    {| http_method := POST; url := apiUrl session;
       headers := defaultHeaders; urlParams := [];
       body := Some (HttpBody_text (JSON_stringify R request)) |}.

Definition executeJMAPRequest (request : Request) : Effect Response :=
  session <- getSession ;;
  logRequest "Sending JMAP request" ;;;
  response <- exchange (apiRequest session request)
                "Failed to send JMAP request" ;;
  if http_status response =? 401 then
    (* Clear cached session on auth error *)
    set_cache None ;;;
    fail (Errors.authentication "Bearer token expired or invalid" None)
  else if negb (http_status response =? 200) then
    fail (Errors.network ("HTTP " ++ Z_toString (http_status response))
            None (Some (http_status response)))
  else
    jsonText <- read_text response ;;
    match JSON_parse R jsonText with
    | inl error =>
        fail (Errors.network "Invalid JSON response" (Some error) None)
    | inr jsonData =>
        match decodeUnknown_Response R jsonData with
        | inl error =>
            fail (Errors.network "Invalid JMAP response format"
                    (Some error) None)
        | inr jmapResponse =>
            logRequest "Received JMAP response" ;;;
            (* Check for method errors in response *)
            done (check_method_errors (methodResponses jmapResponse)) ;;;
            succeed jmapResponse
        end
    end.

(** The loop that splits [methodCalls]:
    [for (let i = 0; i < methodCalls.length; i += maxBatchSize)]. One unit
    of fuel is one test of the loop condition; [None] is a loop that has
    not ended when the fuel has. *)
Fixpoint split_chunks (fuel : nat) (methodCalls : list Invocation)
  (maxBatchSize i : Z) (chunks : list (list Invocation))
  : option (list (list Invocation)) :=
  match fuel with
  | O => None
  | S fuel' =>
      if i <? Z.of_nat (length methodCalls) then
        split_chunks fuel' methodCalls maxBatchSize (i + maxBatchSize)
          (chunks ++ [js_slice methodCalls i (i + maxBatchSize)])
      else Some chunks
  end.

(** [for (const chunk of chunks)]: the chunks one after the other. *)
Fixpoint run_chunks (using_ : list string) (chunks : list (list Invocation))
  (allResponses : list MethodResponse) (latestSessionState : string)
  : Effect Response :=
  match chunks with
  | [] =>
      succeed {| methodResponses := allResponses; createdIds := None;
                 sessionState := latestSessionState |}
  | chunk :: rest =>
      chunkResponse <- executeJMAPRequest
                         {| using_ := using_; methodCalls := chunk;
                            req_createdIds := None |} ;;
      run_chunks using_ rest
        (allResponses ++ methodResponses chunkResponse)
        (sessionState chunkResponse)
  end.

Definition default_using : list string :=
  ["urn:ietf:params:jmap:core"; "urn:ietf:params:jmap:mail"]%string.

(** [batch(methodCalls, using_)]; [None] when splitting has not ended within
    the fuel. *)
Definition batch (fuel : nat) (methodCalls : list Invocation)
  (using_ : option (list string)) (s : ClientState)
  : option (Exit Response * ClientState) :=
  let using_ := using_ ?? default_using in
  let maxBatchSize := maxBatchSize config ?? 50 in
  (* Split large batches into smaller chunks *)
  if Z.of_nat (length methodCalls) >? maxBatchSize then
    match split_chunks fuel methodCalls maxBatchSize 0 [] with
    | None => None
    | Some chunks => Some (run_chunks using_ chunks [] ""%string s)
    end
  else
    (* Single batch request *)
    Some (executeJMAPRequest
            {| using_ := using_; methodCalls := methodCalls;
               req_createdIds := None |} s).

Definition getSessionState : Effect string :=
  session <- getSession ;;
  succeed (state session).

End Client.

Arguments cache {R} _.
Arguments world {R} _.
Arguments trace {R} _.

End JMAPClient.

Import JMAPClient.

(* ================================================================== *)
(** ** ResponseUtils.ts: [extractMethodResponse] *)

(** The schema is the decoder that [Schema.decodeUnknown(schema)] gives. *)
Definition extractMethodResponse {A : Type} (response : Response)
  (methodName callId : string) (schema : json -> JsError + A) : Exit A :=
  if js_not_array (methodResponses response) then
    fail_fromMethodError
      (JObj [("type", JStr "invalidArguments");
             ("description", JStr "No method responses in JMAP response")]
         %string)
      (Some callId)
  else
    match find (fun r : MethodResponse =>
                  let '(name, _, id) := r in
                  String.eqb name methodName && String.eqb id callId)
            (methodResponses response) with
    | None =>
        fail_fromMethodError
          (JObj [("type", JStr "serverFail");
                 ("description",
                  JStr ("Method response not found for " ++ methodName))]
             %string)
          (Some callId)
    | Some (_, result, _) =>
        match schema result with
        | inr a => Success a
        | inl error =>
            fail_fromMethodError
              (JObj [("type", JStr "serverFail");
                     ("description",
                      JStr ("Invalid response format: " ++ render error))]
                 %string)
              (Some callId)
        end
    end.

(* ================================================================== *)
(** ** Notions used to state the properties *)

Section Notions.

Variable R : Runtime.
Variable config : JMAPClientConfig.

(** The freshness test of [getSession], as a boolean: [true] when the
    cache is absent or older than five minutes. *)
Definition needs_fetch (s : ClientState R) : bool :=
  match cache s with
  | None => true
  | Some st => lastUpdated st <? now R (world s) - 5 * 60 * 1000
  end.

(** The envelope that one HTTP exchange of [executeJMAPRequest] decodes:
    the part of that function before the scan for method errors. *)
Definition decoded_envelope (request : Request)
  : Effect R Response :=
  bind R (getSession R config) (fun session =>
  bind R (exchange R config (apiRequest R config session request)
            "Failed to send JMAP request") (fun response =>
  if http_status response =? 401 then
    bind R (set_cache R None) (fun _ =>
    fail R (Errors.authentication "Bearer token expired or invalid" None))
  else if negb (http_status response =? 200) then
    fail R (Errors.network ("HTTP " ++ Z_toString (http_status response))
              None (Some (http_status response)))
  else
    bind R (read_text R response) (fun jsonText =>
    match JSON_parse R jsonText with
    | inl error =>
        fail R (Errors.network "Invalid JSON response" (Some error) None)
    | inr jsonData =>
        match decodeUnknown_Response R jsonData with
        | inl error =>
            fail R (Errors.network "Invalid JMAP response format"
                      (Some error) None)
        | inr jmapResponse => succeed R jmapResponse
        end
    end))).

(** The request envelope that [batch] builds for one chunk. *)
Definition chunk_request (using_ : list string) (chunk : list Invocation)
  : Request :=
  {| using_ := using_; methodCalls := chunk; req_createdIds := None |}.

(** A run of HTTP exchanges, one after the other, that all succeed: the
    requests sent, the responses returned, and the states before and
    after. *)
Inductive exchanges_succeed
  : ClientState R -> list Request -> list Response -> ClientState R -> Prop :=
| exchanges_nil : forall s, exchanges_succeed s [] [] s
| exchanges_cons : forall s request response s1 requests responses s2,
    executeJMAPRequest R config request s = (Success response, s1) ->
    exchanges_succeed s1 requests responses s2 ->
    exchanges_succeed s (request :: requests) (response :: responses) s2.

(** The bodies of the API exchanges of a trace, in the order they were
    started: the first attempts of the POST requests. *)
Definition posted (tr : list HttpEvent) : list (option HttpBody) :=
  map (fun ev => body (ev_request ev))
    (filter (fun ev =>
               match http_method (ev_request ev), ev_attempt ev with
               | POST, O => true
               | _, _ => false
               end) tr).

(** The session fetches of a trace: the first attempts of the GET
    requests. *)
Definition fetched (tr : list HttpEvent) : nat :=
  length (filter (fun ev =>
                    match http_method (ev_request ev), ev_attempt ev with
                    | GET, O => true
                    | _, _ => false
                    end) tr).

(** The attempts of one exchange: the first one, then the retries. *)
Definition attempts_of (request : HttpClientRequest) (first : nat)
  (evs : list HttpEvent) : Prop :=
  exists retries,
    evs = {| ev_request := request; ev_attempt := first |} :: retries /\
    Forall (fun ev => ev_request ev = request /\ (first < ev_attempt ev)%nat)
      retries.

(** [value.key] where the read does not throw. *)
Definition property (value : json) (key : string) : option json :=
  match value with
  | JObj members => lookup_member key members
  | _ => None
  end.

Definition is_error (r : MethodResponse) : bool :=
  let '(methodName, _, _) := r in String.eqb methodName "error".

End Notions.

(** [ceil (a / b)] for a positive [b]. *)
Definition ceil_div (a b : Z) : Z := (a + b - 1) / b.

(* ================================================================== *)
(** ** A scripted server, to run the client on concrete exchanges *)

Module Mock.

(** The world is a clock and the outcomes that the coming attempts will
    have; an attempt takes one millisecond; with the script used up the
    connection is refused. *)
Record server : Type := {
  clock : Z;
  script : list (JsError + HttpClientResponse)
}.

Definition serve (_ : HttpClientRequest) (w : server)
  : (JsError + HttpClientResponse) * server :=
  match script w with
  | [] => (inl (HttpClientError "connection refused"),
           {| clock := clock w + 1; script := [] |})
  | outcome :: rest => (outcome, {| clock := clock w + 1; script := rest |})
  end.

Definition wait (delay : Z) (w : server) : server :=
  {| clock := clock w + delay; script := script w |}.

Definition field (key : string) (j : json) : option json :=
  match j with JObj members => lookup_member key members | _ => None end.

Definition string_field (key : string) (j : json) : option string :=
  match field key j with Some (JStr s) => Some s | _ => None end.

(** The required members of the [Session] shape. *)
Definition decode_Session (j : json) : JsError + Session :=
  match field "capabilities" j, field "accounts" j,
        field "primaryAccounts" j, string_field "username" j,
        string_field "apiUrl" j, string_field "downloadUrl" j,
        string_field "uploadUrl" j, string_field "eventSourceUrl" j,
        string_field "state" j with
  | Some c, Some a, Some p, Some u, Some api, Some d, Some up, Some ev,
    Some st =>
      inr {| capabilities := c; accounts := a; primaryAccounts := p;
             username := u; apiUrl := api; downloadUrl := d;
             uploadUrl := up; eventSourceUrl := ev; state := st |}
  | _, _, _, _, _, _, _, _, _ => inl (ParseError "is missing")
  end.

Definition decode_MethodResponse (j : json) : option MethodResponse :=
  match j with
  | JArr [JStr name; result; JStr id] => Some (name, result, id)
  | _ => None
  end.

Fixpoint decode_all {A B : Type} (f : A -> option B) (l : list A)
  : option (list B) :=
  match l with
  | [] => Some []
  | x :: rest =>
      match f x, decode_all f rest with
      | Some y, Some ys => Some (y :: ys)
      | _, _ => None
      end
  end.

Definition decode_pair (m : string * json) : option (string * string) :=
  match m with (k, JStr v) => Some (k, v) | _ => None end.

(** The members of the [Response] shape. *)
Definition decode_Response (j : json) : JsError + Response :=
  match field "methodResponses" j, string_field "sessionState" j with
  | Some (JArr items), Some st =>
      match decode_all decode_MethodResponse items with
      | Some responses =>
          match field "createdIds" j with
          | None =>
              inr {| methodResponses := responses; createdIds := None;
                     sessionState := st |}
          | Some (JObj members) =>
              match decode_all decode_pair members with
              | Some ids =>
                  inr {| methodResponses := responses;
                         createdIds := Some ids; sessionState := st |}
              | None => inl (ParseError "createdIds")
              end
          | Some _ => inl (ParseError "createdIds")
          end
      | None => inl (ParseError "methodResponses")
      end
  | _, _ => inl (ParseError "is missing")
  end.

Definition session_json (api : string) : json :=
  JObj [("capabilities", JObj []); ("accounts", JObj []);
        ("primaryAccounts", JObj []); ("username", JStr "user");
        ("apiUrl", JStr api); ("downloadUrl", JStr "/download");
        ("uploadUrl", JStr "/upload"); ("eventSourceUrl", JStr "/events");
        ("state", JStr "state-0")]%string.

(** A session document without [apiUrl]. *)
Definition session_json_no_apiUrl : json :=
  JObj [("capabilities", JObj []); ("accounts", JObj []);
        ("primaryAccounts", JObj []); ("username", JStr "user");
        ("downloadUrl", JStr "/download");
        ("uploadUrl", JStr "/upload"); ("eventSourceUrl", JStr "/events");
        ("state", JStr "state-0")]%string.

Definition response_json (responses : list MethodResponse)
  (created : option (list (string * string))) (st : string) : json :=
  JObj ([("methodResponses",
          JArr (map (fun r : MethodResponse =>
                       let '(name, result, id) := r in
                       JArr [JStr name; result; JStr id]) responses))]
        ++ match created with
           | Some ids =>
               [("createdIds",
                 JObj (map (fun kv : string * string =>
                              (fst kv, JStr (snd kv))) ids))]
           | None => []
           end
        ++ [("sessionState", JStr st)]).

(** The bodies the scripted server sends, by name, and what they parse
    to; any other text is not JSON. *)
Definition documents : list (string * json) :=
  [ ("session", session_json "https://api.example.com/jmap");
    ("session without apiUrl", session_json_no_apiUrl);
    ("AB", response_json [("A", JObj [], "1"); ("B", JObj [], "2")]
             (Some [("k1", "id1")]) "s1");
    ("CD", response_json [("C", JObj [], "3"); ("D", JObj [], "4")]
             None "s2");
    ("E", response_json [("E", JObj [], "5")] (Some [("k5", "id5")]) "s3");
    ("error c1",
     response_json
       [("error", JObj [("type", JStr "accountNotFound")], "c1")]
       None "s1");
    ("error with a null payload",
     response_json [("error", JNull, "c1")] None "s1");
    ("ok c0, error c1, error c2",
     response_json
       [("Email/get", JObj [], "c0");
        ("error", JObj [("type", JStr "accountNotFound")], "c1");
        ("error", JObj [("type", JStr "invalidArguments")], "c2")]
       None "s1") ]%string.

Fixpoint lookup_document (name : string) (table : list (string * json))
  : option json :=
  match table with
  | [] => None
  | (k, v) :: rest =>
      if String.eqb k name then Some v else lookup_document name rest
  end.

Definition parse (jsonText : string) : JsError + json :=
  match lookup_document jsonText documents with
  | Some j => inr j
  | None => inl (SyntaxError "Unexpected token")
  end.

(** The method names and call ids of a request, one after the other. *)
Definition stringify (request : Request) : string :=
  String.concat ","
    (map (fun c : Invocation => let '(name, _, id) := c in
                                (name ++ "#" ++ id)%string)
       (methodCalls request)).

Definition runtime : Runtime :=
  {| World := server; execute := serve; now := clock;
     sleep := wait; JSON_parse := parse; JSON_stringify := stringify;
     decodeUnknown_Session := decode_Session;
     decodeUnknown_Response := decode_Response |}.

Definition config (maxBatchSize : option Z) : JMAPClientConfig :=
  {| sessionUrl := "https://api.example.com/jmap/session";
     bearerToken := "token"; userAgent := None; timeout := None;
     maxRetries := None; retryDelay := None;
     maxBatchSize := maxBatchSize; enableRequestLogging := None |}.

Definition ok (name : string) : JsError + HttpClientResponse :=
  inr {| http_status := 200; text := inr name |}.

Definition status (code : Z) : JsError + HttpClientResponse :=
  inr {| http_status := code; text := inr ""%string |}.

Definition start (time : Z) (outcomes : list (JsError + HttpClientResponse))
  : ClientState runtime :=
  Build_ClientState runtime None
    {| clock := time; script := outcomes |} [].

Definition the_session : Session :=
  {| capabilities := JObj []; accounts := JObj [];
     primaryAccounts := JObj []; username := "user";
     apiUrl := "https://api.example.com/jmap"; downloadUrl := "/download";
     uploadUrl := "/upload"; eventSourceUrl := "/events";
     state := "state-0" |}.

(** A client whose session was fetched at [fetchedAt]. *)
Definition cached (fetchedAt time : Z)
  (outcomes : list (JsError + HttpClientResponse)) : ClientState runtime :=
  Build_ClientState runtime
    (Some {| session := the_session; lastUpdated := fetchedAt |})
    {| clock := time; script := outcomes |} [].

Definition five_calls : list Invocation :=
  [("A", JObj [], "1"); ("B", JObj [], "2"); ("C", JObj [], "3");
   ("D", JObj [], "4"); ("E", JObj [], "5")]%string.

End Mock.

(* ================================================================== *)
(** ** JMAPClient.ts: [request] *)

Module Dispatcher.

Section Request.

Variable R : Runtime.
Variable config : JMAPClientConfig.

(** [request(request, responseSchema)]: one exchange, then the decoding of
    the whole envelope by the schema that the caller gives. *)
Definition request {T : Type} (request : Request)
  (responseSchema : Response -> JsError + T) : Effect R T :=
  bind R (executeJMAPRequest R config request) (fun jmapResponse =>
  match responseSchema jmapResponse with
  | inr value => succeed R value
  | inl error =>
      fail R (Errors.network "Response does not match expected schema"
                (Some error) None)
  end).

End Request.

End Dispatcher.

(* ================================================================== *)
(** ** Errors.ts: [Errors.methodError] and the [message] of a method error *)

Module MethodErrors.

(** [Errors.methodError(type, description, details, callId)] *)
Definition methodError (type : string) (description : option string)
  (details : option json) (callId : option string) : JMAPMethodError :=
  {| type := Some (JStr type);
     description := option_map JStr description;
     details := details;
     callId := callId |}.

(** The object literal [{ type, description, details }] of the same
    arguments, members that are [undefined] left out. *)
Definition literal (type : string) (description : option string)
  (details : option json) : json :=
  JObj ([("type", JStr type)]
        ++ match description with
           | Some d => [("description", JStr d)]
           | None => []
           end
        ++ match details with
           | Some d => [("details", d)]
           | None => []
           end).

(** The string that a JSON value becomes in a template literal: an array is
    its elements joined by commas, [null] elements being empty; an object
    is "[object Object]"; a number is the digits of the integer. *)
Fixpoint js_String (value : json) : string :=
  match value with
  | JNull => "null"
  | JBool true => "true"
  | JBool false => "false"
  | JNum n => Z_toString n
  | JStr s => s
  | JArr items =>
      String.concat ","
        (map (fun item => match item with
                          | JNull => ""
                          | _ => js_String item
                          end) items)
  | JObj _ => "[object Object]"
  end.

(** The same for a member that may be absent. *)
Definition js_template (value : option json) : string :=
  match value with
  | None => "undefined"
  | Some v => js_String v
  end.

(** [get message()]: [this.description ?? `JMAP Method Error: ${this.type}`];
    the description stands unless it is [undefined] or [null]. *)
Definition message (e : JMAPMethodError) : json :=
  match description e with
  | None | Some JNull =>
      JStr ("JMAP Method Error: " ++ js_template (type e))
  | Some text => text
  end.

End MethodErrors.

(* ================================================================== *)
(** ** services/Email.ts: [get] *)

Module EmailService.

Section Service.

Variable R : Runtime.
Variable config : JMAPClientConfig.

(** [get(args)]: the call id is stamped with [Date.now()], the single call
    goes through [client.batch] and its response through
    [extractMethodResponse] with the schema [EmailGetResponse]. *)
Definition get {A : Type} (fuel : nat) (args : json)
  (EmailGetResponse : json -> JsError + A) (s : ClientState R)
  : option (Exit A * ClientState R) :=
  let callId := ("email-get-" ++ Z_toString (now R (world s)))%string in
  let methodCall : Invocation := ("Email/get", args, callId) in
  match batch R config fuel [methodCall] None s with
  | None => None
  | Some (Success response, s1) =>
      Some (extractMethodResponse response "Email/get" callId
              EmailGetResponse, s1)
  | Some (Failure e, s1) => Some (Failure e, s1)
  | Some (Die d, s1) => Some (Die d, s1)
  end.

End Service.

End EmailService.

(* ================================================================== *)
(** ** layers/JMAPClientTest.ts: the test client *)

(** The truth value of a JSON value in a condition: [null], [false], [0]
    and the empty string are false. *)
Definition js_truthy (value : json) : bool :=
  match value with
  | JNull => false
  | JBool b => b
  | JNum n => negb (n =? 0)
  | JStr s => negb (String.eqb s "")
  | JArr _ | JObj _ => true
  end.

Module JMAPClientTest.

Record JMAPTestConfig : Type := {
  mockSession : Session;
  mockResponses : option (list (string * json));
  simulateErrors : option bool;
  simulateNetworkDelay : option Z
}.

Section Test.

Variable R : Runtime.
Variable config : JMAPTestConfig.

(** [config.simulateNetworkDelay ? Effect.sleep(..) : Effect.void] *)
Definition simulateDelay : Effect R unit :=
  match simulateNetworkDelay config with
  | Some delay =>
      if delay =? 0 then succeed R tt
      else fun s =>
             (Success tt,
              {| cache := cache s; world := sleep R delay (world s);
                 trace := trace s |})
  | None => succeed R tt
  end.

(** [args?.accountId || 'mock-account'] *)
Definition accountId_of (args : json) : json :=
  match property args "accountId" with
  | Some value => if js_truthy value then value else JStr "mock-account"
  | None => JStr "mock-account"
  end.

Definition getSession : Effect R Session :=
  bind R simulateDelay (fun _ =>
  if simulateErrors config ?? false then
    fail R (Errors.network "Simulated network error" None None)
  else succeed R (mockSession config)).

(** [batch(methodCalls, _using)]: one mock response per call. *)
Definition batch (methodCalls : list Invocation)
  (_using : option (list string)) : Effect R Response :=
  bind R simulateDelay (fun _ =>
  if simulateErrors config ?? false then
    fail R (Errors.network "Simulated batch error" None None)
  else
    succeed R
      {| methodResponses :=
           map (fun call : Invocation =>
                  let '(methodName, args, callId) := call in
                  (methodName, JObj [("accountId", accountId_of args)],
                   callId))
             methodCalls;
         createdIds := None;
         sessionState := state (mockSession config) |}).

Definition getSessionState : Effect R string :=
  bind R simulateDelay (fun _ => succeed R (state (mockSession config))).

End Test.

End JMAPClientTest.

(* ================================================================== *)
(** ** Further notions *)

Section MoreNotions.

Variable R : Runtime.
Variable config : JMAPClientConfig.




(** How an operation may leave the cache: as it was, absent, or holding a
    session that the [Session] schema decoded. *)
Definition cache_outcome (s s' : ClientState R) : Prop :=
  cache s' = cache s \/
  cache s' = None \/
  exists st jsonData,
    cache s' = Some st /\
    decodeUnknown_Session R jsonData = inr (session st).

(** The invocation that matches a method name and a call id. *)
Definition matches (methodName callId : string) (r : MethodResponse) : bool :=
  let '(name, _, id) := r in
  String.eqb name methodName && String.eqb id callId.

End MoreNotions.

(* ================================================================== *)
(** ** A second scripted server, for the service layer *)

Module Demo.

Definition documents : list (string * json) :=
  [ ("session", Mock.session_json "https://api.example.com/jmap");
    ("get at 0",
     Mock.response_json
       [("Email/get", JObj [("list", JArr [])], "email-get-0")]
       None "s1");
    ("get at 7",
     Mock.response_json
       [("Email/get", JObj [("list", JArr [])], "email-get-7")]
       None "s1");
    ("rate limit",
     Mock.response_json
       [("error", JObj [("type", JStr "rateLimit");
                        ("description", JStr "slow down")], "c1")]
       None "s1") ].

Definition parse (jsonText : string) : JsError + json :=
  match Mock.lookup_document jsonText documents with
  | Some j => inr j
  | None => inl (SyntaxError "Unexpected token")
  end.

Definition runtime : Runtime :=
  {| World := Mock.server; execute := Mock.serve; now := Mock.clock;
     sleep := Mock.wait; JSON_parse := parse;
     JSON_stringify := Mock.stringify;
     decodeUnknown_Session := Mock.decode_Session;
     decodeUnknown_Response := Mock.decode_Response |}.

Definition start (time : Z) (outcomes : list (JsError + HttpClientResponse))
  : ClientState runtime :=
  Build_ClientState runtime None
    {| Mock.clock := time; Mock.script := outcomes |} [].

(** A schema that accepts an object with a [list] member. *)
Definition has_list (j : json) : JsError + json :=
  match Mock.field "list" j with
  | Some l => inr l
  | None => inl (ParseError "list is missing")
  end.

Definition refused : JsError + HttpClientResponse :=
  inl (HttpClientError "connection refused").

End Demo.

(* ================================================================== *)
(** ** The retried exchange *)

Section Exchange.

Variable R : Runtime.
Variable config : JMAPClientConfig.

Lemma execute_retry_trace :
  forall recurs attempt delay request w tr result w' tr',
    execute_retry R recurs attempt delay request w tr = (result, w', tr') ->
    exists evs, tr' = tr ++ evs /\ attempts_of request attempt evs.
Proof.
  induction recurs as [|n IH]; intros attempt delay request w tr result w' tr';
    simpl; destruct (execute R request w) as [[err|resp] w1] eqn:E; intro H.
  - inversion H; subst. eexists; split; [reflexivity|].
    exists []; split; [reflexivity|constructor].
  - inversion H; subst. eexists; split; [reflexivity|].
    exists []; split; [reflexivity|constructor].
  - apply IH in H. destruct H as (evs & -> & retries & -> & Hall).
    rewrite <- app_assoc. simpl. eexists; split; [reflexivity|].
    eexists; split; [reflexivity|].
    constructor; [simpl; split; [reflexivity|lia]|].
    eapply Forall_impl; [|exact Hall]. simpl. intros ev [? ?]; split; [assumption|lia].
  - inversion H; subst. eexists; split; [reflexivity|].
    exists []; split; [reflexivity|constructor].
Qed.

(** A response ends the exchange: the attempt that received it is the
    last one. *)
Lemma execute_retry_response_last :
  forall recurs attempt delay request w tr response w' tr',
    execute_retry R recurs attempt delay request w tr
      = (inr response, w', tr') ->
    exists w0 tr0 k,
      execute R request w0 = (inr response, w') /\
      tr' = tr0 ++ [{| ev_request := request; ev_attempt := k |}].
Proof.
  induction recurs as [|n IH]; intros attempt delay request w tr response w' tr';
    simpl; destruct (execute R request w) as [[err|resp] w1] eqn:E; intro H.
  - discriminate.
  - inversion H; subst. eauto.
  - eapply IH; eassumption.
  - inversion H; subst. eauto.
Qed.

(** A response to the first attempt: one attempt, no retry. *)
Lemma execute_retry_first :
  forall recurs delay request w tr response w',
    execute R request w = (inr response, w') ->
    execute_retry R recurs 0 delay request w tr
      = (inr response, w',
         tr ++ [{| ev_request := request; ev_attempt := 0 |}]).
Proof.
  intros recurs delay request w tr response w' E.
  destruct recurs; simpl; rewrite E; reflexivity.
Qed.

Lemma exchange_inv :
  forall request message s out s',
    exchange R config request message s = (out, s') ->
    cache s' = cache s /\
    (exists evs, trace s' = trace s ++ evs /\ attempts_of request 0 evs) /\
    ((exists response, out = Success response) \/
     (exists error,
        out = Failure (NetworkError message (Some error) None))).
Proof.
  unfold exchange. intros request message s out s'.
  destruct (execute_retry R _ 0 _ request (world s) (trace s))
    as [[result w1] tr1] eqn:E.
  apply execute_retry_trace in E.
  destruct result as [error|response]; intro H; inversion H; subst; simpl;
    (split; [reflexivity|split; [assumption|]]); eauto.
Qed.

Lemma posted_app :
  forall tr1 tr2, posted (tr1 ++ tr2) = posted tr1 ++ posted tr2.
Proof.
  intros. unfold posted. rewrite filter_app, map_app. reflexivity.
Qed.

Lemma fetched_app :
  forall tr1 tr2, fetched (tr1 ++ tr2) = (fetched tr1 + fetched tr2)%nat.
Proof.
  intros. unfold fetched. rewrite filter_app, length_app. reflexivity.
Qed.

Lemma retries_not_first :
  forall request retries,
    Forall (fun ev => ev_request ev = request /\ (0 < ev_attempt ev)%nat)
      retries ->
    posted retries = [] /\ fetched retries = 0%nat.
Proof.
  induction 1 as [|ev retries [Hreq Hk] _ [IHp IHf]]; [split; reflexivity|].
  unfold posted, fetched in *. simpl.
  destruct (http_method (ev_request ev)), (ev_attempt ev);
    try lia; split; assumption.
Qed.

Lemma attempts_posted :
  forall request evs,
    attempts_of request 0 evs ->
    http_method request = POST ->
    posted evs = [body request] /\ fetched evs = 0%nat.
Proof.
  intros request evs (retries & -> & Hall) Hm.
  apply retries_not_first in Hall. destruct Hall as [Hp Hf].
  change (?a :: retries) with ([a] ++ retries).
  rewrite posted_app, fetched_app, Hp, Hf.
  unfold posted, fetched. simpl. rewrite Hm. split; reflexivity.
Qed.

Lemma attempts_fetched :
  forall request evs,
    attempts_of request 0 evs ->
    http_method request = GET ->
    posted evs = [] /\ fetched evs = 1%nat.
Proof.
  intros request evs (retries & -> & Hall) Hm.
  apply retries_not_first in Hall. destruct Hall as [Hp Hf].
  change (?a :: retries) with ([a] ++ retries).
  rewrite posted_app, fetched_app, Hp, Hf.
  unfold posted, fetched. simpl. rewrite Hm. split; reflexivity.
Qed.

Lemma with_timeout_method :
  forall request,
    http_method (with_timeout config request) = http_method request /\
    body (with_timeout config request) = body request.
Proof.
  intro request. unfold with_timeout.
  destruct (timeout config) as [t|]; [destruct (t =? 0)|]; split; reflexivity.
Qed.

End Exchange.

(* ================================================================== *)
(** ** The session cache *)

Section SessionCache.

Variable R : Runtime.
Variable config : JMAPClientConfig.

Local Abbreviation fetchSession := (fetchSession R config).
Local Abbreviation getSession := (getSession R config).
Local Abbreviation sessionRequest := (sessionRequest config).
Local Abbreviation session_exchange :=
  (exchange R config sessionRequest "Failed to connect to JMAP server").

Lemma logRequest_succeed :
  forall message, logRequest R config message = succeed R tt.
Proof.
  intro message. unfold logRequest.
  destruct (enableRequestLogging config ?? false); reflexivity.
Qed.

(** [fetchSession], by the outcome of its exchange. *)
Lemma fetchSession_exchange :
  forall s,
    fetchSession s =
    match session_exchange s with
    | (Success response, s1) =>
        if http_status response =? 401 then
          (Failure (AuthenticationError "Invalid bearer token" None), s1)
        else if negb (http_status response =? 200) then
          (Failure (NetworkError
                      ("HTTP " ++ Z_toString (http_status response))
                      None (Some (http_status response))), s1)
        else
          match text response with
          | inl _ =>
              (Failure (NetworkError "Failed to read response body"
                          None None), s1)
          | inr jsonText =>
              match JSON_parse R jsonText with
              | inl error =>
                  (Failure (NetworkError "Invalid JSON response"
                              (Some error) None), s1)
              | inr jsonData =>
                  match decodeUnknown_Session R jsonData with
                  | inl error =>
                      (Failure (SessionError
                                  "Invalid session response format"
                                  (Some error)), s1)
                  | inr session =>
                      (Success session,
                       {| cache := Some {| session := session;
                                           lastUpdated := now R (world s1) |};
                          world := world s1; trace := trace s1 |})
                  end
              end
          end
    | (Failure e, s1) => (Failure e, s1)
    | (Die d, s1) => (Die d, s1)
    end.
Proof.
  intro s. unfold JMAPClient.fetchSession.
  rewrite logRequest_succeed. unfold bind at 1. unfold succeed at 1.
  unfold bind at 1.
  destruct (session_exchange s) as [[response|e|d] s1]; try reflexivity.
  destruct (http_status response =? 401); [reflexivity|].
  destruct (negb (http_status response =? 200)); [reflexivity|].
  unfold bind, read_text.
  destruct (text response) as [err|jsonText]; [reflexivity|].
  unfold succeed.
  destruct (JSON_parse R jsonText) as [err|jsonData]; [reflexivity|].
  destruct (decodeUnknown_Session R jsonData); reflexivity.
Qed.

(** Every run of [fetchSession] is one exchange with the session
    endpoint, and the cache is written only with a session that was
    received with status 200, parsed and validated. *)
Lemma fetchSession_inv :
  forall s out s',
    fetchSession s = (out, s') ->
    (exists evs,
       trace s' = trace s ++ evs /\ attempts_of sessionRequest 0 evs) /\
    (cache s' = cache s /\ (forall session, out <> Success session) \/
     exists response jsonText jsonData session,
       http_status response = 200 /\
       text response = inr jsonText /\
       JSON_parse R jsonText = inr jsonData /\
       decodeUnknown_Session R jsonData = inr session /\
       out = Success session /\
       cache s' = Some {| session := session;
                          lastUpdated := now R (world s') |}).
Proof.
  intros s out s'. rewrite fetchSession_exchange.
  destruct (session_exchange s) as [[response|e|d] s1] eqn:E;
    apply exchange_inv in E; destruct E as (Hc & Htr & Hout).
  - destruct (http_status response =? 401) eqn:E401;
      [intro H; inversion H; subst; split;
       [assumption|left; split; [assumption|discriminate]]|].
    destruct (http_status response =? 200) eqn:E200; simpl;
      [|intro H; inversion H; subst; split;
        [assumption|left; split; [assumption|discriminate]]].
    destruct (text response) as [err|jsonText] eqn:Et;
      [intro H; inversion H; subst; split;
       [assumption|left; split; [assumption|discriminate]]|].
    destruct (JSON_parse R jsonText) as [err|jsonData] eqn:Ep;
      [intro H; inversion H; subst; split;
       [assumption|left; split; [assumption|discriminate]]|].
    destruct (decodeUnknown_Session R jsonData) as [err|session] eqn:Ed;
      intro H; inversion H; subst; (split; [assumption|]).
    + left; split; [assumption|discriminate].
    + right. exists response, jsonText, jsonData, session. simpl.
      apply Z.eqb_eq in E200. repeat split; assumption.
  - intro H; inversion H; subst.
    split; [assumption|left; split; [assumption|discriminate]].
  - intro H; inversion H; subst.
    split; [assumption|left; split; [assumption|discriminate]].
Qed.

Lemma fetchSession_fetched :
  forall s out s',
    fetchSession s = (out, s') ->
    fetched (trace s') = S (fetched (trace s)) /\
    posted (trace s') = posted (trace s).
Proof.
  intros s out s' H. apply fetchSession_inv in H.
  destruct H as [(evs & Htr & Hevs) _].
  apply attempts_fetched in Hevs;
    [|unfold JMAPClient.sessionRequest;
      rewrite (proj1 (with_timeout_method config _)); reflexivity].
  destruct Hevs as [Hp Hf].
  rewrite Htr, fetched_app, posted_app, Hp, Hf, app_nil_r. split; [lia|reflexivity].
Qed.

Lemma getSession_fetch :
  forall s, needs_fetch R s = true -> getSession s = fetchSession s.
Proof.
  intros s H. unfold JMAPClient.getSession, needs_fetch in *.
  destruct (cache s) as [st|]; [|reflexivity].
  cbv zeta. rewrite H. reflexivity.
Qed.

Lemma getSession_cached :
  forall s,
    needs_fetch R s = false ->
    exists st, cache s = Some st /\ getSession s = (Success (session st), s).
Proof.
  intros s H. unfold JMAPClient.getSession, needs_fetch in *.
  destruct (cache s) as [st|]; [|discriminate].
  exists st. cbv zeta. rewrite H. split; reflexivity.
Qed.

Lemma exchange_first_attempt :
  forall request message s response w',
    execute R request (world s) = (inr response, w') ->
    exchange R config request message s =
    (Success response,
     {| cache := cache s; world := w';
        trace := trace s ++ [{| ev_request := request; ev_attempt := 0 |}] |}).
Proof.
  intros request message s response w' E. unfold exchange.
  rewrite (execute_retry_first R _ _ _ _ _ _ _ E). reflexivity.
Qed.

Lemma fetch_changes_state :
  forall s out, fetchSession s <> (out, s).
Proof.
  intros s out H. apply fetchSession_fetched in H. lia.
Qed.

(** C4 (amended). With a cached session, [getSession] returns it with no
    HTTP exchange (the state, trace included, is unchanged) if and only if
    [now - lastUpdated <= 5 minutes]; with no cached session, or with one
    that is older than five minutes, [getSession] is [fetchSession], which
    starts exactly one exchange with the session endpoint. *)
Theorem getSession_freshness :
  forall s,
    (forall st,
       cache s = Some st ->
       (getSession s = (Success (session st), s) <->
        now R (world s) - lastUpdated st <= 5 * 60 * 1000)) /\
    ((cache s = None \/
      exists st, cache s = Some st /\
                 5 * 60 * 1000 < now R (world s) - lastUpdated st) ->
     getSession s = fetchSession s /\
     fetched (trace (snd (getSession s))) = S (fetched (trace s))).
Proof.
  intro s. split.
  - intros st Hc. split.
    + intro H. destruct (needs_fetch R s) eqn:N.
      * rewrite (getSession_fetch s N) in H.
        exfalso. exact (fetch_changes_state _ _ H).
      * unfold needs_fetch in N. rewrite Hc in N.
        apply Z.ltb_ge in N. lia.
    + intro Hage.
      assert (N : needs_fetch R s = false).
      { unfold needs_fetch. rewrite Hc. apply Z.ltb_ge. lia. }
      destruct (getSession_cached s N) as (st' & Hc' & Hg).
      rewrite Hc in Hc'. inversion Hc'; subst. exact Hg.
  - intro H.
    assert (N : needs_fetch R s = true).
    { unfold needs_fetch. destruct H as [->|(st & -> & Hage)];
        [reflexivity|apply Z.ltb_lt; lia]. }
    rewrite (getSession_fetch s N). split; [reflexivity|].
    destruct (fetchSession s) as [out s'] eqn:E.
    apply fetchSession_fetched in E. simpl. tauto.
Qed.

(** The cache after [fetchSession]: as before, or written with the session
    that the exchange of this very run received with status 200 and that
    was parsed and validated. *)
Lemma fetchSession_written :
  forall s out s',
    fetchSession s = (out, s') ->
    cache s' = cache s \/
    exists response s1 jsonText jsonData session,
      session_exchange s = (Success response, s1) /\
      http_status response = 200 /\
      text response = inr jsonText /\
      JSON_parse R jsonText = inr jsonData /\
      decodeUnknown_Session R jsonData = inr session /\
      out = Success session /\
      cache s' = Some {| session := session;
                         lastUpdated := now R (world s') |} /\
      world s' = world s1 /\
      trace s' = trace s1.
Proof.
  intros s out s'. rewrite fetchSession_exchange.
  destruct (session_exchange s) as [[response|e|d] s1] eqn:E;
    pose proof (proj1 (exchange_inv _ _ _ _ _ _ _ E)) as Hc;
    try (intro H; inversion H; subst; left; exact Hc).
  destruct (http_status response =? 401) eqn:E401;
    [intro H; inversion H; subst; left; exact Hc|].
  destruct (http_status response =? 200) eqn:E200; simpl;
    [|intro H; inversion H; subst; left; exact Hc].
  destruct (text response) as [err|jsonText] eqn:Et;
    [intro H; inversion H; subst; left; exact Hc|].
  destruct (JSON_parse R jsonText) as [err|jsonData] eqn:Ep;
    [intro H; inversion H; subst; left; exact Hc|].
  destruct (decodeUnknown_Session R jsonData) as [err|session] eqn:Ed;
    intro H; inversion H; subst; [left; exact Hc|].
  right. exists response, s1, jsonText, jsonData, session.
  apply Z.eqb_eq in E200. simpl. repeat split; assumption.
Qed.

(** C7. A run of [getSession] whose exchange with the session endpoint
    receives status 401 fails with the authentication error in the state in
    which the response arrived: nothing is sent after it (when the first
    attempt receives the 401, the trace grows by that one attempt) and the
    cache is as before the call. In every run, the cache is left as it was,
    or the run had to fetch, its own exchange with the session endpoint
    succeeded with a response of status 200 whose body was read, parsed and
    validated, and the cache holds the session so decoded, stamped with the
    clock, in the state that this exchange left. *)
Theorem getSession_unauthorized :
  forall s out s',
    getSession s = (out, s') ->
    (forall response s1,
       needs_fetch R s = true ->
       session_exchange s = (Success response, s1) ->
       http_status response = 401 ->
       out = Failure (AuthenticationError "Invalid bearer token" None) /\
       s' = s1 /\
       cache s' = cache s /\
       (forall w',
          execute R sessionRequest (world s) = (inr response, w') ->
          trace s' =
          trace s ++ [{| ev_request := sessionRequest; ev_attempt := 0 |}])) /\
    (cache s' = cache s \/
     exists response s1 jsonText jsonData session,
       needs_fetch R s = true /\
       session_exchange s = (Success response, s1) /\
       http_status response = 200 /\
       text response = inr jsonText /\
       JSON_parse R jsonText = inr jsonData /\
       decodeUnknown_Session R jsonData = inr session /\
       out = Success session /\
       cache s' = Some {| session := session;
                          lastUpdated := now R (world s') |} /\
       world s' = world s1 /\
       trace s' = trace s1).
Proof.
  intros s out s' H. split.
  - intros response s1 N E H401.
    rewrite (getSession_fetch s N), fetchSession_exchange, E in H.
    rewrite H401 in H. simpl in H. inversion H; subst.
    split; [reflexivity|]. split; [reflexivity|].
    split; [apply exchange_inv in E; tauto|].
    intros w' Ex.
    rewrite (exchange_first_attempt _ _ _ _ _ Ex) in E.
    inversion E; subst. reflexivity.
  - destruct (needs_fetch R s) eqn:N.
    + rewrite (getSession_fetch s N) in H. apply fetchSession_written in H.
      destruct H as [Hc|(response & s1 & jsonText & jsonData & session & Hw)];
        [left; exact Hc|].
      right. exists response, s1, jsonText, jsonData, session.
      split; [reflexivity|exact Hw].
    + destruct (getSession_cached s N) as (st & Hc & Hg).
      rewrite Hg in H. inversion H; subst. left; reflexivity.
Qed.

(** C8. When the session endpoint answers 200 with a readable body, a body
    that is not JSON makes [getSession] fail with a network error
    ("Invalid JSON response"), and a body that is JSON but does not validate
    against the [Session] shape makes it fail with a session error
    ("Invalid session response format"): two different kinds. *)
Theorem getSession_invalid_body :
  forall s response s1 jsonText,
    needs_fetch R s = true ->
    session_exchange s = (Success response, s1) ->
    http_status response = 200 ->
    text response = inr jsonText ->
    (forall error,
       JSON_parse R jsonText = inl error ->
       getSession s =
       (Failure (NetworkError "Invalid JSON response" (Some error) None),
        s1)) /\
    (forall jsonData error,
       JSON_parse R jsonText = inr jsonData ->
       decodeUnknown_Session R jsonData = inl error ->
       getSession s =
       (Failure (SessionError "Invalid session response format"
                   (Some error)), s1)) /\
    (forall e1 e2, kind_of (NetworkError "Invalid JSON response" e1 None)
                   <> kind_of (SessionError
                                 "Invalid session response format" e2)).
Proof.
  intros s response s1 jsonText N E H200 Ht.
  rewrite (getSession_fetch s N), fetchSession_exchange, E, H200, Ht.
  simpl. split; [|split].
  - intros error ->. reflexivity.
  - intros jsonData error -> ->. reflexivity.
  - intros e1 e2. discriminate.
Qed.

End SessionCache.

(* ================================================================== *)
(** ** The request dispatcher: one exchange *)

Section Dispatcher.

Variable R : Runtime.
Variable config : JMAPClientConfig.

Local Abbreviation fetchSession := (fetchSession R config).
Local Abbreviation getSession := (getSession R config).
Local Abbreviation executeJMAPRequest := (executeJMAPRequest R config).
Local Abbreviation apiRequest := (apiRequest R config).
Local Abbreviation api_exchange session request :=
  (exchange R config (apiRequest session request)
     "Failed to send JMAP request").
Local Abbreviation batch := (batch R config).

Lemma js_get_not_null :
  forall value key,
    value <> JNull -> js_get value key = inr (property value key).
Proof.
  intros value key H. destruct value; try reflexivity. contradiction.
Qed.

Lemma fromMethodError_not_null :
  forall error callId,
    error <> JNull ->
    fromMethodError error callId =
    inr {| type := property error "type";
           description := property error "description";
           details := property error "details";
           callId := callId |}.
Proof.
  intros error callId H. unfold fromMethodError.
  rewrite !js_get_not_null by assumption. reflexivity.
Qed.

Lemma check_first_error :
  forall before payload X after,
    Forall (fun r => is_error r = false) before ->
    check_method_errors (before ++ ("error", payload, X) :: after)
    = fail_fromMethodError payload (Some X).
Proof.
  induction 1 as [|[[methodName result] callId] before Hr _ IH]; simpl.
  - reflexivity.
  - simpl in Hr. rewrite Hr. exact IH.
Qed.

Lemma check_success :
  forall responses,
    check_method_errors responses = Success tt ->
    Forall (fun r => is_error r = false) responses.
Proof.
  induction responses as [|[[methodName result] callId] rest IH]; simpl.
  - constructor.
  - destruct (String.eqb methodName "error") eqn:E.
    + unfold fail_fromMethodError.
      destruct (fromMethodError result (Some callId)); discriminate.
    + intro H. constructor; [exact E|exact (IH H)].
Qed.

Lemma check_no_error :
  forall responses,
    Forall (fun r => is_error r = false) responses ->
    check_method_errors responses = Success tt.
Proof.
  induction 1 as [|[[methodName result] callId] rest Hr _ IH]; simpl.
  - reflexivity.
  - simpl in Hr. rewrite Hr. exact IH.
Qed.

(** [executeJMAPRequest] is the decoding of the envelope followed by the
    scan for method errors. *)
Lemma executeJMAPRequest_envelope :
  forall request s,
    executeJMAPRequest request s =
    match decoded_envelope R config request s with
    | (Success jmapResponse, s1) =>
        match check_method_errors (methodResponses jmapResponse) with
        | Success _ => (Success jmapResponse, s1)
        | Failure e => (Failure e, s1)
        | Die d => (Die d, s1)
        end
    | (Failure e, s1) => (Failure e, s1)
    | (Die d, s1) => (Die d, s1)
    end.
Proof.
  intros request s.
  unfold JMAPClient.executeJMAPRequest, decoded_envelope.
  rewrite !logRequest_succeed. unfold bind, succeed, fail, done, set_cache.
  destruct (getSession s) as [[session|e|d] s1]; try reflexivity.
  destruct (api_exchange session request s1) as [[response|e|d] s2];
    try reflexivity.
  destruct (http_status response =? 401); [reflexivity|].
  destruct (negb (http_status response =? 200)); [reflexivity|].
  unfold read_text, succeed, fail.
  destruct (text response) as [err|jsonText]; [reflexivity|].
  destruct (JSON_parse R jsonText) as [err|jsonData]; [reflexivity|].
  destruct (decodeUnknown_Response R jsonData) as [err|jmapResponse];
    [reflexivity|].
  destruct (check_method_errors (methodResponses jmapResponse));
    reflexivity.
Qed.

(** The envelope, by the outcomes of [getSession] and of the exchange. *)
Lemma decoded_envelope_exchange :
  forall request s,
    decoded_envelope R config request s =
    match getSession s with
    | (Success session, s1) =>
        match api_exchange session request s1 with
        | (Success response, s2) =>
            if http_status response =? 401 then
              (Failure (AuthenticationError
                          "Bearer token expired or invalid" None),
               {| cache := None; world := world s2; trace := trace s2 |})
            else if negb (http_status response =? 200) then
              (Failure (NetworkError
                          ("HTTP " ++ Z_toString (http_status response))
                          None (Some (http_status response))), s2)
            else
              match text response with
              | inl _ =>
                  (Failure (NetworkError "Failed to read response body"
                              None None), s2)
              | inr jsonText =>
                  match JSON_parse R jsonText with
                  | inl error =>
                      (Failure (NetworkError "Invalid JSON response"
                                  (Some error) None), s2)
                  | inr jsonData =>
                      match decodeUnknown_Response R jsonData with
                      | inl error =>
                          (Failure (NetworkError
                                      "Invalid JMAP response format"
                                      (Some error) None), s2)
                      | inr jmapResponse => (Success jmapResponse, s2)
                      end
                  end
              end
        | (Failure e, s2) => (Failure e, s2)
        | (Die d, s2) => (Die d, s2)
        end
    | (Failure e, s1) => (Failure e, s1)
    | (Die d, s1) => (Die d, s1)
    end.
Proof.
  intros request s. unfold decoded_envelope.
  unfold bind, succeed, fail, set_cache.
  destruct (getSession s) as [[session|e|d] s1]; try reflexivity.
  destruct (api_exchange session request s1) as [[response|e|d] s2];
    try reflexivity.
  destruct (http_status response =? 401); [reflexivity|].
  destruct (negb (http_status response =? 200)); [reflexivity|].
  unfold read_text, succeed, fail.
  destruct (text response) as [err|jsonText]; [reflexivity|].
  destruct (JSON_parse R jsonText) as [err|jsonData]; [reflexivity|].
  destruct (decodeUnknown_Response R jsonData); reflexivity.
Qed.

Lemma getSession_posted :
  forall s out s',
    getSession s = (out, s') -> posted (trace s') = posted (trace s).
Proof.
  intros s out s' H. destruct (needs_fetch R s) eqn:N.
  - rewrite (getSession_fetch R config s N) in H.
    apply fetchSession_fetched in H. tauto.
  - destruct (getSession_cached R config s N) as (st & _ & Hg).
    rewrite Hg in H. inversion H; subst. reflexivity.
Qed.

(** A successful exchange starts exactly one POST, whose body is the
    serialized request. *)
Lemma executeJMAPRequest_posted :
  forall request s jmapResponse s',
    executeJMAPRequest request s = (Success jmapResponse, s') ->
    posted (trace s') =
    posted (trace s) ++ [Some (HttpBody_text (JSON_stringify R request))] /\
    Forall (fun r => is_error r = false) (methodResponses jmapResponse).
Proof.
  intros request s jmapResponse s'.
  rewrite executeJMAPRequest_envelope, decoded_envelope_exchange.
  destruct (getSession s) as [[session|e|d] s1] eqn:G; try discriminate.
  apply getSession_posted in G.
  destruct (api_exchange session request s1) as [[response|e|d] s2] eqn:E;
    try discriminate.
  apply exchange_inv in E. destruct E as (_ & (evs & Htr & Hevs) & _).
  apply attempts_posted in Hevs;
    [|unfold JMAPClient.apiRequest;
      rewrite (proj1 (with_timeout_method config _)); reflexivity].
  destruct Hevs as [Hp _].
  unfold JMAPClient.apiRequest in Hp.
  rewrite (proj2 (with_timeout_method config _)) in Hp. simpl in Hp.
  destruct (http_status response =? 401); [discriminate|].
  destruct (negb (http_status response =? 200)); [discriminate|].
  destruct (text response) as [err|jsonText]; [discriminate|].
  destruct (JSON_parse R jsonText) as [err|jsonData]; [discriminate|].
  destruct (decodeUnknown_Response R jsonData) as [err|r]; [discriminate|].
  destruct (check_method_errors (methodResponses r)) as [[]|e|d] eqn:C;
    try discriminate.
  intro H; inversion H; subst.
  rewrite Htr, posted_app, Hp, G. split; [reflexivity|].
  apply check_success. exact C.
Qed.

End Dispatcher.

(* ================================================================== *)
(** ** Splitting a batch into chunks *)

Section Chunks.

Context {A : Type}.

Lemma js_slice_chunk :
  forall (l : list A) i m,
    0 <= i < Z.of_nat (length l) ->
    0 < m ->
    js_slice l i (i + m) =
    firstn (Z.to_nat (Z.min m (Z.of_nat (length l) - i)))
      (skipn (Z.to_nat i) l).
Proof.
  intros l i m Hi Hm. unfold js_slice.
  destruct (i <? 0) eqn:E1; [apply Z.ltb_lt in E1; lia|].
  destruct (i + m <? 0) eqn:E2; [apply Z.ltb_lt in E2; lia|].
  f_equal; [|f_equal]; lia.
Qed.

Lemma chunk_and_rest :
  forall (l : list A) i m,
    0 <= i < Z.of_nat (length l) ->
    0 < m ->
    js_slice l i (i + m) ++ skipn (Z.to_nat (i + m)) l
    = skipn (Z.to_nat i) l.
Proof.
  intros l i m Hi Hm. rewrite js_slice_chunk by assumption.
  rewrite <- (firstn_skipn (Z.to_nat (Z.min m (Z.of_nat (length l) - i)))
                (skipn (Z.to_nat i) l)) at 2.
  f_equal. rewrite skipn_skipn.
  destruct (Z.le_gt_cases m (Z.of_nat (length l) - i)) as [Hle|Hgt].
  - f_equal. lia.
  - rewrite !skipn_all2 by lia. reflexivity.
Qed.

Lemma chunk_length :
  forall (l : list A) i m,
    0 <= i < Z.of_nat (length l) ->
    0 < m ->
    Z.of_nat (length (js_slice l i (i + m)))
    = Z.min m (Z.of_nat (length l) - i).
Proof.
  intros l i m Hi Hm. rewrite js_slice_chunk by assumption.
  rewrite length_firstn, length_skipn. lia.
Qed.

End Chunks.

Lemma ceil_div_zero : forall b, 0 < b -> ceil_div 0 b = 0.
Proof.
  intros b Hb. unfold ceil_div. apply Z.div_small. lia.
Qed.

Lemma ceil_div_step :
  forall a b,
    0 < b -> 0 < a -> ceil_div a b = 1 + ceil_div (Z.max 0 (a - b)) b.
Proof.
  intros a b Hb Ha. unfold ceil_div.
  destruct (Z.le_gt_cases a b) as [Hle|Hgt].
  - replace (Z.max 0 (a - b)) with 0 by lia.
    replace (0 + b - 1) with (b - 1) by lia.
    rewrite (Z.div_small (b - 1) b) by lia.
    replace (a + b - 1) with ((a - 1) + 1 * b) by lia.
    rewrite Z.div_add by lia. rewrite Z.div_small by lia. reflexivity.
  - replace (Z.max 0 (a - b)) with (a - b) by lia.
    replace (a + b - 1) with ((a - b + b - 1) + 1 * b) by lia.
    rewrite Z.div_add by lia. lia.
Qed.

(** [ceil_div] is the ceiling of the quotient. *)
Lemma ceil_div_spec :
  forall a b,
    0 < b -> (ceil_div a b - 1) * b < a <= ceil_div a b * b.
Proof.
  intros a b Hb. unfold ceil_div.
  pose proof (Z.div_mod (a + b - 1) b ltac:(lia)) as Hdm.
  pose proof (Z.mod_pos_bound (a + b - 1) b Hb) as Hm.
  nia.
Qed.

Lemma ceil_div_nonneg : forall a b, 0 < b -> 0 <= a -> 0 <= ceil_div a b.
Proof.
  intros a b Hb Ha. unfold ceil_div. apply Z.div_pos; lia.
Qed.

Lemma split_chunks_spec :
  forall fuel (methodCalls : list Invocation) maxBatchSize i chunks,
    0 < maxBatchSize ->
    0 <= i ->
    ceil_div (Z.max 0 (Z.of_nat (length methodCalls) - i)) maxBatchSize
    < Z.of_nat fuel ->
    exists more,
      split_chunks fuel methodCalls maxBatchSize i chunks
      = Some (chunks ++ more) /\
      concat more = skipn (Z.to_nat i) methodCalls /\
      Forall (fun c => (0 < length c)%nat /\
                       Z.of_nat (length c) <= maxBatchSize) more /\
      Z.of_nat (length more)
      = ceil_div (Z.max 0 (Z.of_nat (length methodCalls) - i))
          maxBatchSize.
Proof.
  induction fuel as [|fuel IH]; intros methodCalls m i chunks Hm Hi Hfuel.
  - pose proof (ceil_div_nonneg
                  (Z.max 0 (Z.of_nat (length methodCalls) - i)) m Hm).
    lia.
  - simpl. destruct (i <? Z.of_nat (length methodCalls)) eqn:E.
    + apply Z.ltb_lt in E.
      rewrite (ceil_div_step _ m Hm) in Hfuel by lia.
      replace (Z.max 0 (Z.max 0 (Z.of_nat (length methodCalls) - i) - m))
        with (Z.max 0 (Z.of_nat (length methodCalls) - (i + m)))
        in Hfuel by lia.
      destruct (IH methodCalls m (i + m)
                  (chunks ++ [js_slice methodCalls i (i + m)]) Hm)
        as (more & Hs & Hc & Hall & Hlen); [lia|lia|].
      exists (js_slice methodCalls i (i + m) :: more).
      split; [rewrite Hs, <- app_assoc; reflexivity|].
      split; [simpl; rewrite Hc; apply chunk_and_rest; lia|].
      split.
      * constructor; [|exact Hall].
        pose proof (chunk_length methodCalls i m ltac:(lia) Hm). lia.
      * rewrite (ceil_div_step _ m Hm) by lia.
        replace (Z.max 0 (Z.max 0 (Z.of_nat (length methodCalls) - i) - m))
          with (Z.max 0 (Z.of_nat (length methodCalls) - (i + m))) by lia.
        simpl length. lia.
    + apply Z.ltb_ge in E. exists []. rewrite app_nil_r.
      split; [reflexivity|]. split; [rewrite skipn_all2 by lia; reflexivity|].
      split; [constructor|].
      replace (Z.max 0 (Z.of_nat (length methodCalls) - i)) with 0 by lia.
      rewrite ceil_div_zero by assumption. reflexivity.
Qed.

Lemma split_chunks_more_fuel :
  forall fuel (methodCalls : list Invocation) maxBatchSize i chunks result,
    split_chunks fuel methodCalls maxBatchSize i chunks = Some result ->
    forall fuel', (fuel <= fuel')%nat ->
      split_chunks fuel' methodCalls maxBatchSize i chunks = Some result.
Proof.
  induction fuel as [|fuel IH]; intros methodCalls m i chunks result H fuel' Hle.
  - discriminate.
  - destruct fuel' as [|fuel']; [lia|]. simpl in *.
    destruct (i <? Z.of_nat (length methodCalls)); [|exact H].
    apply (IH _ _ _ _ _ H). lia.
Qed.

(** With a positive batch size the loop ends, and its chunks are an ordered
    partition of the calls into [ceil (length / maxBatchSize)] non-empty
    chunks of at most [maxBatchSize] calls. *)
Lemma split_chunks_total :
  forall (methodCalls : list Invocation) maxBatchSize,
    0 < maxBatchSize ->
    exists chunks,
      (forall fuel,
         ceil_div (Z.of_nat (length methodCalls)) maxBatchSize
         < Z.of_nat fuel ->
         split_chunks fuel methodCalls maxBatchSize 0 [] = Some chunks) /\
      concat chunks = methodCalls /\
      Forall (fun c => (0 < length c)%nat /\
                       Z.of_nat (length c) <= maxBatchSize) chunks /\
      Z.of_nat (length chunks)
      = ceil_div (Z.of_nat (length methodCalls)) maxBatchSize.
Proof.
  intros methodCalls m Hm.
  set (n := ceil_div (Z.of_nat (length methodCalls)) m).
  assert (Hn : 0 <= n) by (apply ceil_div_nonneg; lia).
  destruct (split_chunks_spec (S (Z.to_nat n)) methodCalls m 0 [] Hm)
    as (chunks & Hs & Hc & Hall & Hlen).
  - lia.
  - replace (Z.max 0 (Z.of_nat (length methodCalls) - 0))
      with (Z.of_nat (length methodCalls)) by lia.
    fold n. lia.
  - replace (Z.max 0 (Z.of_nat (length methodCalls) - 0))
      with (Z.of_nat (length methodCalls)) in Hlen by lia.
    exists chunks. rewrite app_nil_l in Hs. change (skipn _ _) with methodCalls in Hc.
    split; [|split; [exact Hc|split; [exact Hall|exact Hlen]]].
    intros fuel Hfuel.
    apply (split_chunks_more_fuel _ _ _ _ _ _ Hs). lia.
Qed.

(** With a batch size of zero or less and a call to send, the loop never
    ends. *)
Lemma split_chunks_diverges :
  forall fuel (methodCalls : list Invocation) maxBatchSize i chunks,
    maxBatchSize <= 0 ->
    i < Z.of_nat (length methodCalls) ->
    split_chunks fuel methodCalls maxBatchSize i chunks = None.
Proof.
  induction fuel as [|fuel IH]; intros methodCalls m i chunks Hm Hi.
  - reflexivity.
  - simpl. destruct (i <? Z.of_nat (length methodCalls)) eqn:E.
    + apply IH; lia.
    + apply Z.ltb_ge in E. lia.
Qed.

(* ================================================================== *)
(** ** The request dispatcher: [batch] *)

Section Batch.

Variable R : Runtime.
Variable config : JMAPClientConfig.

Local Abbreviation getSession := (getSession R config).
Local Abbreviation fetchSession := (fetchSession R config).
Local Abbreviation executeJMAPRequest := (executeJMAPRequest R config).
Local Abbreviation run_chunks := (run_chunks R config).
Local Abbreviation batch := (batch R config).
Local Abbreviation exchanges_succeed := (exchanges_succeed R config).
Local Abbreviation size := (maxBatchSize config ?? 50).
Local Abbreviation sent_body request :=
  (Some (HttpBody_text (JSON_stringify R request))).
Local Abbreviation no_error :=
  (Forall (fun r : MethodResponse => is_error r = false)).

Lemma last_cons :
  forall (l : list string) a d, last (a :: l) d = last l a.
Proof.
  induction l as [|b l IH]; intros a d; [reflexivity|].
  change (last (a :: b :: l) d) with (last (b :: l) d).
  rewrite !IH. reflexivity.
Qed.

Lemma run_chunks_step :
  forall using_ chunk rest allResponses latest s,
    run_chunks using_ (chunk :: rest) allResponses latest s =
    match executeJMAPRequest (chunk_request using_ chunk) s with
    | (Success chunkResponse, s1) =>
        run_chunks using_ rest
          (allResponses ++ methodResponses chunkResponse)
          (sessionState chunkResponse) s1
    | (Failure e, s1) => (Failure e, s1)
    | (Die d, s1) => (Die d, s1)
    end.
Proof. reflexivity. Qed.

Lemma run_chunks_success :
  forall using_ chunks allResponses latest s responses s',
    exchanges_succeed s (map (chunk_request using_) chunks) responses s' ->
    run_chunks using_ chunks allResponses latest s =
    (Success {| methodResponses :=
                  allResponses ++ concat (map methodResponses responses);
                createdIds := None;
                sessionState := last (map sessionState responses) latest |},
     s').
Proof.
  intros using_ chunks.
  induction chunks as [|chunk rest IH];
    intros allResponses latest s responses s' H; inversion H; subst.
  - simpl. rewrite app_nil_r. reflexivity.
  - rewrite run_chunks_step.
    match goal with E : executeJMAPRequest _ _ = _ |- _ => rewrite E end.
    erewrite IH by eassumption.
    simpl map. simpl concat. rewrite last_cons, app_assoc. reflexivity.
Qed.

Lemma run_chunks_failure :
  forall using_ before chunk after allResponses latest s responses s1 out s2,
    exchanges_succeed s (map (chunk_request using_) before) responses s1 ->
    executeJMAPRequest (chunk_request using_ chunk) s1 = (out, s2) ->
    (forall response, out <> Success response) ->
    run_chunks using_ (before ++ chunk :: after) allResponses latest s
    = (out, s2).
Proof.
  intros using_ before.
  induction before as [|c before IH];
    intros chunk after allResponses latest s responses s1 out s2 H E Hout;
    inversion H; subst.
  - simpl app. rewrite run_chunks_step, E.
    destruct out as [response|e|d]; [|reflexivity|reflexivity].
    exfalso. exact (Hout response eq_refl).
  - simpl app. rewrite run_chunks_step.
    match goal with E' : executeJMAPRequest _ s = _ |- _ => rewrite E' end.
    eapply IH; eassumption.
Qed.

Lemma run_chunks_result :
  forall using_ chunks allResponses latest s response s',
    run_chunks using_ chunks allResponses latest s = (Success response, s') ->
    createdIds response = None /\
    (no_error allResponses -> no_error (methodResponses response)).
Proof.
  intros using_ chunks.
  induction chunks as [|chunk rest IH];
    intros allResponses latest s response s' H.
  - inversion H; subst. simpl. split; [reflexivity|auto].
  - rewrite run_chunks_step in H.
    destruct (executeJMAPRequest (chunk_request using_ chunk) s)
      as [[chunkResponse|e|d] s1] eqn:E; try discriminate.
    apply executeJMAPRequest_posted in E. destruct E as [_ Hno].
    apply IH in H. destruct H as [Hc Hn]. split; [exact Hc|].
    intro Ha. apply Hn. apply Forall_app. split; assumption.
Qed.

Lemma exchanges_posted :
  forall s requests responses s',
    exchanges_succeed s requests responses s' ->
    length responses = length requests /\
    posted (trace s') =
    posted (trace s) ++ map (fun request => sent_body request) requests.
Proof.
  induction 1 as [s|s request response s1 requests responses s2 E _ [IHl IHp]].
  - simpl. rewrite app_nil_r. split; reflexivity.
  - apply executeJMAPRequest_posted in E. destruct E as [E _].
    simpl. rewrite IHl, IHp, E, <- app_assoc. split; reflexivity.
Qed.

(** Whatever its outcome, one run of [executeJMAPRequest] starts at most
    one POST, that of its own request. *)
Lemma executeJMAPRequest_posted_any :
  forall request s out s',
    executeJMAPRequest request s = (out, s') ->
    exists sent,
      posted (trace s') = posted (trace s) ++ sent /\
      (sent = [] \/ sent = [sent_body request]).
Proof.
  intros request s out s'.
  rewrite executeJMAPRequest_envelope, decoded_envelope_exchange.
  destruct (JMAPClient.getSession R config s) as [[session|e|d] s1] eqn:G;
    apply getSession_posted in G;
    try (intro H; inversion H; subst; exists []; rewrite app_nil_r;
         split; [exact G|left; reflexivity]).
  destruct (exchange R config (apiRequest R config session request)
              "Failed to send JMAP request" s1)
    as [[response|e|d] s2] eqn:E;
    apply exchange_inv in E; destruct E as (_ & (evs & Htr & Hevs) & _);
    (apply attempts_posted in Hevs;
     [|unfold apiRequest;
       rewrite (proj1 (with_timeout_method config _)); reflexivity]);
    destruct Hevs as [Hp _]; unfold apiRequest in Hp;
    rewrite (proj2 (with_timeout_method config _)) in Hp; simpl in Hp;
    assert (Hs2 : posted (trace s2)
                  = posted (trace s) ++ [sent_body request])
      by (rewrite Htr, posted_app, Hp, G; reflexivity);
    try (intro H; inversion H; subst; eexists; split;
         [exact Hs2|right; reflexivity]).
  destruct (http_status response =? 401);
    [intro H; inversion H; subst; eexists; split;
     [exact Hs2|right; reflexivity]|].
  destruct (negb (http_status response =? 200));
    [intro H; inversion H; subst; eexists; split;
     [exact Hs2|right; reflexivity]|].
  destruct (text response) as [err|jsonText];
    [intro H; inversion H; subst; eexists; split;
     [exact Hs2|right; reflexivity]|].
  destruct (JSON_parse R jsonText) as [err|jsonData];
    [intro H; inversion H; subst; eexists; split;
     [exact Hs2|right; reflexivity]|].
  destruct (decodeUnknown_Response R jsonData) as [err|r];
    [intro H; inversion H; subst; eexists; split;
     [exact Hs2|right; reflexivity]|].
  destruct (check_method_errors (methodResponses r));
    intro H; inversion H; subst; eexists; split;
    solve [exact Hs2|right; reflexivity].
Qed.

Lemma batch_single :
  forall fuel methodCalls using_ s,
    Z.of_nat (length methodCalls) <= size ->
    batch fuel methodCalls using_ s =
    Some (executeJMAPRequest
            (chunk_request (using_ ?? default_using) methodCalls) s).
Proof.
  intros fuel methodCalls using_ s H. unfold JMAPClient.batch.
  destruct (Z.of_nat (length methodCalls) >? size) eqn:E; [|reflexivity].
  apply Z.gtb_lt in E. lia.
Qed.

Lemma batch_chunked :
  forall fuel methodCalls using_ s,
    size < Z.of_nat (length methodCalls) ->
    batch fuel methodCalls using_ s =
    match split_chunks fuel methodCalls size 0 [] with
    | None => None
    | Some chunks =>
        Some (run_chunks (using_ ?? default_using) chunks [] "" s)
    end.
Proof.
  intros fuel methodCalls using_ s H. unfold JMAPClient.batch.
  destruct (Z.of_nat (length methodCalls) >? size) eqn:E; [reflexivity|].
  rewrite Z.gtb_ltb in E. apply Z.ltb_ge in E. lia.
Qed.

(** The chunked path when every exchange succeeds. *)
Lemma batch_chunked_success :
  forall fuel methodCalls using_ s,
    0 < size ->
    size < Z.of_nat (length methodCalls) ->
    ceil_div (Z.of_nat (length methodCalls)) size < Z.of_nat fuel ->
    exists chunks,
      split_chunks fuel methodCalls size 0 [] = Some chunks /\
      concat chunks = methodCalls /\
      Forall (fun c => (0 < length c)%nat /\ Z.of_nat (length c) <= size)
        chunks /\
      Z.of_nat (length chunks)
      = ceil_div (Z.of_nat (length methodCalls)) size /\
      forall responses s',
        exchanges_succeed s
          (map (chunk_request (using_ ?? default_using)) chunks)
          responses s' ->
        batch fuel methodCalls using_ s =
        Some (Success
                {| methodResponses := concat (map methodResponses responses);
                   createdIds := None;
                   sessionState := last (map sessionState responses) "" |},
              s').
Proof.
  intros fuel methodCalls using_ s Hsize Hlen Hfuel.
  destruct (split_chunks_total methodCalls size Hsize)
    as (chunks & Hs & Hc & Hall & Hn).
  exists chunks. specialize (Hs fuel Hfuel).
  repeat (split; [assumption|]).
  intros responses s' H.
  rewrite batch_chunked by assumption. rewrite Hs.
  erewrite run_chunks_success by eassumption. reflexivity.
Qed.

(** C1. With a positive [maxBatchSize] (50 when the configuration gives
    none) and more calls than that, splitting ends (for any fuel above the
    number of chunks) with an ordered partition of [methodCalls] into
    [ceil (length / maxBatchSize)] non-empty chunks of at most
    [maxBatchSize] calls; when the exchanges of the chunks, run one after
    the other, all succeed, [batch] starts exactly one POST per chunk, in
    the order of the chunks, and returns the concatenation of the
    [methodResponses] of the chunks in that order. *)
Theorem batch_chunked_exchanges :
  forall fuel methodCalls using_ s,
    0 < size ->
    size < Z.of_nat (length methodCalls) ->
    ceil_div (Z.of_nat (length methodCalls)) size < Z.of_nat fuel ->
    exists chunks,
      split_chunks fuel methodCalls size 0 [] = Some chunks /\
      concat chunks = methodCalls /\
      Forall (fun c => (0 < length c)%nat /\ Z.of_nat (length c) <= size)
        chunks /\
      Z.of_nat (length chunks)
      = ceil_div (Z.of_nat (length methodCalls)) size /\
      forall responses s',
        exchanges_succeed s
          (map (chunk_request (using_ ?? default_using)) chunks)
          responses s' ->
        length responses = length chunks /\
        posted (trace s') =
        posted (trace s) ++
        map (fun chunk =>
               sent_body (chunk_request (using_ ?? default_using) chunk))
          chunks /\
        exists response,
          batch fuel methodCalls using_ s = Some (Success response, s') /\
          methodResponses response
          = concat (map methodResponses responses).
Proof.
  intros fuel methodCalls using_ s Hsize Hlen Hfuel.
  destruct (batch_chunked_success fuel methodCalls using_ s Hsize Hlen Hfuel)
    as (chunks & Hs & Hc & Hall & Hn & Hb).
  exists chunks. repeat (split; [assumption|]).
  intros responses s' H.
  destruct (exchanges_posted _ _ _ _ H) as [Hl Hp].
  rewrite length_map in Hl. rewrite map_map in Hp.
  split; [exact Hl|]. split; [exact Hp|].
  eexists. split; [exact (Hb _ _ H)|reflexivity].
Qed.

(** C6. On the chunked path, when every exchange succeeds, the
    [sessionState] of the combined response is that of the response to the
    last chunk. *)
Theorem batch_chunked_sessionState :
  forall fuel methodCalls using_ s,
    0 < size ->
    size < Z.of_nat (length methodCalls) ->
    ceil_div (Z.of_nat (length methodCalls)) size < Z.of_nat fuel ->
    exists chunks,
      split_chunks fuel methodCalls size 0 [] = Some chunks /\
      forall responses s',
        exchanges_succeed s
          (map (chunk_request (using_ ?? default_using)) chunks)
          responses s' ->
        exists earlier lastResponse response,
          responses = earlier ++ [lastResponse] /\
          batch fuel methodCalls using_ s = Some (Success response, s') /\
          sessionState response = sessionState lastResponse.
Proof.
  intros fuel methodCalls using_ s Hsize Hlen Hfuel.
  destruct (batch_chunked_success fuel methodCalls using_ s Hsize Hlen Hfuel)
    as (chunks & Hs & Hc & Hall & Hn & Hb).
  exists chunks. split; [assumption|].
  intros responses s' H.
  destruct (exchanges_posted _ _ _ _ H) as [Hl _].
  rewrite length_map in Hl.
  assert (Hne : responses <> []).
  { intros ->. simpl in Hl. rewrite <- Hl in Hn.
    pose proof (ceil_div_spec (Z.of_nat (length methodCalls)) size Hsize).
    simpl in Hn. lia. }
  destruct (exists_last Hne) as (earlier & lastResponse & ->).
  exists earlier, lastResponse. eexists.
  split; [reflexivity|]. split; [exact (Hb _ _ H)|].
  simpl. rewrite map_app. simpl. apply last_last.
Qed.

(** C9. On the chunked path, when the exchanges of the first chunks succeed
    and that of the next chunk does not, [batch] ends there with that
    outcome and nothing else: its state is the one the failed exchange
    left, in which no POST has been started for a later chunk. *)
Theorem batch_chunk_failure :
  forall fuel methodCalls using_ s chunks before chunk after
         responses s1 out s2,
    size < Z.of_nat (length methodCalls) ->
    split_chunks fuel methodCalls size 0 [] = Some chunks ->
    chunks = before ++ chunk :: after ->
    exchanges_succeed s
      (map (chunk_request (using_ ?? default_using)) before) responses s1 ->
    executeJMAPRequest (chunk_request (using_ ?? default_using) chunk) s1
    = (out, s2) ->
    (forall response, out <> Success response) ->
    batch fuel methodCalls using_ s = Some (out, s2) /\
    exists sent,
      posted (trace s2) =
      posted (trace s) ++
      map (fun c => sent_body (chunk_request (using_ ?? default_using) c))
        before ++ sent /\
      (sent = [] \/
       sent = [sent_body (chunk_request (using_ ?? default_using) chunk)]).
Proof.
  intros fuel methodCalls using_ s chunks before chunk after
    responses s1 out s2 Hlen Hs -> H E Hout.
  split.
  - rewrite batch_chunked by assumption. rewrite Hs.
    erewrite run_chunks_failure by eassumption. reflexivity.
  - destruct (exchanges_posted _ _ _ _ H) as [_ Hp].
    rewrite map_map in Hp.
    destruct (executeJMAPRequest_posted_any _ _ _ _ E) as (sent & Hp2 & Hsent).
    exists sent. split; [|exact Hsent].
    rewrite Hp2, Hp, <- app_assoc. reflexivity.
Qed.

(** C10. On the chunked path every response that [batch] returns has no
    [createdIds], and [batch] does return one when every exchange succeeds,
    whatever [createdIds] the responses to the chunks carry; on the other
    path [batch] is the single exchange, whose decoded envelope it returns
    as it is. *)
Theorem batch_createdIds :
  forall fuel methodCalls using_ s,
    (size < Z.of_nat (length methodCalls) ->
     forall response s',
       batch fuel methodCalls using_ s = Some (Success response, s') ->
       createdIds response = None) /\
    (0 < size ->
     size < Z.of_nat (length methodCalls) ->
     ceil_div (Z.of_nat (length methodCalls)) size < Z.of_nat fuel ->
     exists chunks,
       split_chunks fuel methodCalls size 0 [] = Some chunks /\
       forall responses s',
         exchanges_succeed s
           (map (chunk_request (using_ ?? default_using)) chunks)
           responses s' ->
         exists response,
           batch fuel methodCalls using_ s = Some (Success response, s') /\
           createdIds response = None) /\
    (Z.of_nat (length methodCalls) <= size ->
     batch fuel methodCalls using_ s =
     Some (executeJMAPRequest
             (chunk_request (using_ ?? default_using) methodCalls) s) /\
     forall jmapResponse s',
       decoded_envelope R config
         (chunk_request (using_ ?? default_using) methodCalls) s
       = (Success jmapResponse, s') ->
       no_error (methodResponses jmapResponse) ->
       batch fuel methodCalls using_ s = Some (Success jmapResponse, s')).
Proof.
  intros fuel methodCalls using_ s. split; [|split].
  - intros Hlen response s' H. rewrite batch_chunked in H by assumption.
    destruct (split_chunks fuel methodCalls size 0 []) as [chunks|];
      [|discriminate].
    inversion H as [H']. apply run_chunks_result in H'. tauto.
  - intros Hsize Hlen Hfuel.
    destruct (batch_chunked_success fuel methodCalls using_ s
                Hsize Hlen Hfuel) as (chunks & Hs & _ & _ & _ & Hb).
    exists chunks. split; [assumption|].
    intros responses s' H. eexists. split; [exact (Hb _ _ H)|reflexivity].
  - intro Hlen. rewrite batch_single by assumption. split; [reflexivity|].
    intros jmapResponse s' E Hno.
    rewrite executeJMAPRequest_envelope, E, (check_no_error _ Hno).
    reflexivity.
Qed.

(** C5. When the API endpoint answers an exchange with 401,
    [executeJMAPRequest] (and [batch] on the single-exchange path) fails
    with the authentication error, in the state the exchange left but with
    the cache absent; nothing is sent after the 401 (when the first attempt
    receives it, the trace grows by that one attempt); and [getSession]
    with the cache absent is [fetchSession], which starts an exchange with
    the session endpoint. *)
Theorem api_unauthorized :
  forall request s session s1 response s2,
    getSession s = (Success session, s1) ->
    exchange R config (apiRequest R config session request)
      "Failed to send JMAP request" s1 = (Success response, s2) ->
    http_status response = 401 ->
    let s3 := {| cache := None; world := world s2; trace := trace s2 |} in
    executeJMAPRequest request s =
    (Failure (AuthenticationError "Bearer token expired or invalid" None),
     s3) /\
    (forall fuel methodCalls using_,
       request = chunk_request (using_ ?? default_using) methodCalls ->
       Z.of_nat (length methodCalls) <= size ->
       batch fuel methodCalls using_ s =
       Some (Failure (AuthenticationError
                        "Bearer token expired or invalid" None), s3)) /\
    (forall w',
       execute R (apiRequest R config session request) (world s1)
       = (inr response, w') ->
       trace s3 =
       trace s1 ++ [{| ev_request := apiRequest R config session request;
                       ev_attempt := 0 |}]) /\
    getSession s3 = fetchSession s3 /\
    fetched (trace (snd (getSession s3))) = S (fetched (trace s3)).
Proof.
  intros request s session s1 response s2 G E H401 s3.
  assert (Hx : executeJMAPRequest request s =
               (Failure (AuthenticationError
                           "Bearer token expired or invalid" None), s3)).
  { rewrite executeJMAPRequest_envelope, decoded_envelope_exchange, G, E.
    rewrite H401. reflexivity. }
  split; [exact Hx|]. split; [|split].
  - intros fuel methodCalls using_ -> Hlen.
    rewrite batch_single by assumption. rewrite Hx. reflexivity.
  - intros w' Ex. rewrite (exchange_first_attempt _ _ _ _ _ _ _ Ex) in E.
    inversion E; subst. reflexivity.
  - assert (N : needs_fetch R s3 = true) by reflexivity.
    rewrite (getSession_fetch R config s3 N). split; [reflexivity|].
    destruct (fetchSession s3) as [out s4] eqn:F.
    apply fetchSession_fetched in F. simpl. tauto.
Qed.

(** C3 (amended). When the envelope that an exchange decodes holds
    invocations named "error", [executeJMAPRequest] fails with the method
    error made from the first of them in the order of [methodResponses],
    provided the payload of that one is not [null]: the [callId] of the
    failure is the call id of that invocation and its [type],
    [description] and [details] are the members of the payload. [batch]
    fails in the same way, on the single-exchange path and on the chunked
    path when the exchanges of the chunks before succeeded. No response that
    [batch] returns holds an invocation named "error". *)
Theorem method_error_aborts :
  (forall request s0 jmapResponse s1 before payload X after,
     decoded_envelope R config request s0 = (Success jmapResponse, s1) ->
     methodResponses jmapResponse = before ++ ("error", payload, X) :: after ->
     no_error before ->
     payload <> JNull ->
     let e := {| type := property payload "type";
                 description := property payload "description";
                 details := property payload "details";
                 callId := Some X |} in
     executeJMAPRequest request s0 = (Failure (MethodError e), s1) /\
     (forall fuel methodCalls using_,
        request = chunk_request (using_ ?? default_using) methodCalls ->
        Z.of_nat (length methodCalls) <= size ->
        batch fuel methodCalls using_ s0
        = Some (Failure (MethodError e), s1)) /\
     (forall fuel methodCalls using_ s chunks earlier chunk later responses,
        size < Z.of_nat (length methodCalls) ->
        split_chunks fuel methodCalls size 0 [] = Some chunks ->
        chunks = earlier ++ chunk :: later ->
        exchanges_succeed s
          (map (chunk_request (using_ ?? default_using)) earlier)
          responses s0 ->
        request = chunk_request (using_ ?? default_using) chunk ->
        batch fuel methodCalls using_ s
        = Some (Failure (MethodError e), s1))) /\
  (forall fuel methodCalls using_ s response s',
     batch fuel methodCalls using_ s = Some (Success response, s') ->
     no_error (methodResponses response)).
Proof.
  split.
  - intros request s0 jmapResponse s1 before payload X after E Hm Hno Hp e.
    assert (Hx : executeJMAPRequest request s0
                 = (Failure (MethodError e), s1)).
    { rewrite executeJMAPRequest_envelope, E, Hm.
      rewrite (check_first_error _ _ _ _ Hno).
      unfold fail_fromMethodError.
      rewrite (fromMethodError_not_null _ _ Hp). reflexivity. }
    split; [exact Hx|]. split.
    + intros fuel methodCalls using_ -> Hlen.
      rewrite batch_single by assumption. rewrite Hx. reflexivity.
    + intros fuel methodCalls using_ s chunks earlier chunk later responses
        Hlen Hs -> H ->.
      rewrite batch_chunked by assumption. rewrite Hs.
      erewrite run_chunks_failure;
        [reflexivity|eassumption|exact Hx|discriminate].
  - intros fuel methodCalls using_ s response s' H.
    destruct (Z.of_nat (length methodCalls) >? size) eqn:E.
    + apply Z.gtb_lt in E. rewrite batch_chunked in H by assumption.
      destruct (split_chunks fuel methodCalls size 0 []) as [chunks|];
        [|discriminate].
      inversion H as [H']. apply run_chunks_result in H'.
      destruct H' as [_ H']. apply H'. constructor.
    + rewrite Z.gtb_ltb in E. apply Z.ltb_ge in E.
      rewrite batch_single in H by assumption.
      inversion H as [H']. apply executeJMAPRequest_posted in H'. tauto.
Qed.

End Batch.

(* ================================================================== *)
(** ** Response extraction *)

Section Extraction.

Context {A : Type}.
Variable schema : json -> JsError + A.

Local Abbreviation same methodName callId :=
  (fun r : MethodResponse =>
     let '(name, _, id) := r in
     String.eqb name methodName && String.eqb id callId).

Lemma find_absent :
  forall methodName callId (responses : list MethodResponse),
    (forall result, ~ In (methodName, result, callId) responses) ->
    find (same methodName callId) responses = None.
Proof.
  intros methodName callId responses.
  induction responses as [|[[name result] id] rest IH]; intro H;
    [reflexivity|].
  simpl. destruct (String.eqb name methodName) eqn:En;
    [destruct (String.eqb id callId) eqn:Ei|]; simpl.
  - apply String.eqb_eq in En, Ei. subst.
    exfalso. apply (H result). left; reflexivity.
  - apply IH. intros r Hin. apply (H r). right; exact Hin.
  - apply IH. intros r Hin. apply (H r). right; exact Hin.
Qed.

Lemma find_first :
  forall methodName callId before result after,
    (forall r, ~ In (methodName, r, callId) before) ->
    find (same methodName callId)
      (before ++ (methodName, result, callId) :: after)
    = Some (methodName, result, callId).
Proof.
  intros methodName callId before result after.
  induction before as [|[[name r0] id] rest IH]; intro H.
  - simpl. rewrite !String.eqb_refl. reflexivity.
  - simpl. destruct (String.eqb name methodName) eqn:En;
      [destruct (String.eqb id callId) eqn:Ei|]; simpl.
    + apply String.eqb_eq in En, Ei. subst.
      exfalso. apply (H r0). left; reflexivity.
    + apply IH. intros r Hin. apply (H r). right; exact Hin.
    + apply IH. intros r Hin. apply (H r). right; exact Hin.
Qed.

(** C2 (amended). When no invocation of [methodResponses] has both the
    method name and the call id, extraction fails with a method error of
    type [serverFail] whose description is "Method response not found for"
    followed by the method name, and whose [callId] is the call id; when
    the first invocation that has both carries a payload that the schema
    rejects, extraction fails with a method error of type [serverFail]
    whose description is "Invalid response format:" followed by the
    rendering of the decoding error, with the same [callId]. *)
Theorem extractMethodResponse_failures :
  forall response methodName callId,
    ((forall result,
        ~ In (methodName, result, callId) (methodResponses response)) ->
     extractMethodResponse response methodName callId schema =
     Failure (MethodError
                {| type := Some (JStr "serverFail");
                   description :=
                     Some (JStr ("Method response not found for "
                                   ++ methodName)%string);
                   details := None;
                   callId := Some callId |})) /\
    (forall before result after error,
       methodResponses response
       = before ++ (methodName, result, callId) :: after ->
       (forall r, ~ In (methodName, r, callId) before) ->
       schema result = inl error ->
       extractMethodResponse response methodName callId schema =
       Failure (MethodError
                  {| type := Some (JStr "serverFail");
                     description :=
                       Some (JStr ("Invalid response format: "
                                     ++ render error)%string);
                     details := None;
                     callId := Some callId |})).
Proof.
  intros response methodName callId. split.
  - intro H. unfold extractMethodResponse, js_not_array.
    rewrite (find_absent _ _ _ H). reflexivity.
  - intros before result after error Hm H Herr.
    unfold extractMethodResponse, js_not_array.
    rewrite Hm, (find_first _ _ _ _ _ H), Herr. reflexivity.
Qed.

End Extraction.

(* ================================================================== *)
(** ** The properties on the scripted server *)

Section Scenarios.

Local Abbreviation R := Mock.runtime.
Local Abbreviation plain := (Mock.config None).
Local Abbreviation two := (Mock.config (Some 2)).

(** A session fetched at time 0 is served from the cache at time 300000 and
    fetched again at time 300001. *)
Lemma getSession_freshness_witness :
  getSession R plain (Mock.cached 0 300000 [Mock.ok "session"])
  = (Success Mock.the_session, Mock.cached 0 300000 [Mock.ok "session"]) /\
  fetched
    (trace (snd (getSession R plain
                   (Mock.cached 0 300001 [Mock.ok "session"]))))
  = 1%nat.
Proof.
  split.
  - apply (proj1 (getSession_freshness R plain
                    (Mock.cached 0 300000 [Mock.ok "session"]))
             {| session := Mock.the_session; lastUpdated := 0 |} eq_refl).
    simpl. lia.
  - apply (proj2 (getSession_freshness R plain
                    (Mock.cached 0 300001 [Mock.ok "session"]))).
    right. eexists. split; [reflexivity|simpl; lia].
Defined.

(** The claim with the strict bound fails on a session that is exactly five
    minutes old: it is served from the cache, with no exchange. *)
Lemma getSession_strict_bound_counterexample :
  ~ (forall (s : ClientState R) st,
       cache s = Some st ->
       (getSession R plain s = (Success (session st), s) <->
        now R (world s) - lastUpdated st < 5 * 60 * 1000)).
Proof.
  intro H.
  specialize (H (Mock.cached 0 300000 [Mock.ok "session"])
                {| session := Mock.the_session; lastUpdated := 0 |} eq_refl).
  destruct H as [H _]. specialize (H eq_refl). simpl in H. lia.
Qed.

(** The session endpoint answers 401 to a client with an empty cache. *)
Lemma getSession_unauthorized_witness :
  let s := Mock.start 0 [Mock.status 401] in
  let s' :=
    Build_ClientState R None {| Mock.clock := 1; Mock.script := [] |}
      [{| ev_request := sessionRequest plain; ev_attempt := 0 |}] in
  getSession R plain s
  = (Failure (AuthenticationError "Invalid bearer token" None), s') /\
  cache s' = cache s.
Proof.
  intros s s'.
  assert (H : getSession R plain s
              = (Failure (AuthenticationError "Invalid bearer token" None),
                 s')) by reflexivity.
  split; [exact H|].
  destruct (getSession_unauthorized R plain s _ s' H) as [H1 _].
  destruct (H1 {| http_status := 401; text := inr "" |} s'
              eq_refl eq_refl eq_refl) as (_ & _ & Hc & _).
  exact Hc.
Defined.

(** A body that is not JSON, and a session document without [apiUrl]. *)
Lemma getSession_invalid_body_witness :
  getSession R plain (Mock.start 0 [Mock.ok "<html>"])
  = (Failure (NetworkError "Invalid JSON response"
                (Some (SyntaxError "Unexpected token")) None),
     Build_ClientState R None {| Mock.clock := 1; Mock.script := [] |}
       [{| ev_request := sessionRequest plain; ev_attempt := 0 |}]) /\
  getSession R plain (Mock.start 0 [Mock.ok "session without apiUrl"])
  = (Failure (SessionError "Invalid session response format"
                (Some (ParseError "is missing"))),
     Build_ClientState R None {| Mock.clock := 1; Mock.script := [] |}
       [{| ev_request := sessionRequest plain; ev_attempt := 0 |}]).
Proof.
  split.
  - apply (proj1 (getSession_invalid_body R plain
                    (Mock.start 0 [Mock.ok "<html>"])
                    {| http_status := 200; text := inr "<html>" |} _ "<html>"
                    eq_refl eq_refl eq_refl eq_refl)).
    reflexivity.
  - apply (proj1 (proj2 (getSession_invalid_body R plain
                    (Mock.start 0 [Mock.ok "session without apiUrl"])
                    {| http_status := 200;
                       text := inr "session without apiUrl" |} _
                    "session without apiUrl"
                    eq_refl eq_refl eq_refl eq_refl))
             Mock.session_json_no_apiUrl); reflexivity.
Defined.

Local Abbreviation five_start :=
  (Mock.start 0 [Mock.ok "session"; Mock.ok "AB"; Mock.ok "CD"; Mock.ok "E"]).

Local Ltac run_exchanges :=
  repeat (eapply exchanges_cons; [lazy; reflexivity|]); apply exchanges_nil.

(** [maxBatchSize = 2] and the five calls A to E: three exchanges, of two,
    two and one calls, and the five responses in the order of the calls. *)
Lemma batch_chunked_exchanges_witness :
  exists response s',
    batch R two 4 Mock.five_calls None five_start
    = Some (Success response, s') /\
    methodResponses response = Mock.five_calls /\
    map (option_map body_text) (posted (trace s'))
    = [Some "A#1,B#2"; Some "C#3,D#4"; Some "E#5"].
Proof.
  destruct (batch_chunked_exchanges R two 4 Mock.five_calls None five_start)
    as (chunks & Hs & _ & _ & _ & Hb); [reflexivity|reflexivity|reflexivity|].
  vm_compute in Hs. injection Hs as <-.
  edestruct Hb as (_ & Hp & response & Hr & Hm); [run_exchanges|].
  exists response. eexists. split; [exact Hr|].
  split; [rewrite Hm; reflexivity|rewrite Hp; reflexivity].
Defined.

(** In the same run the combined [sessionState] is that of the response to
    the chunk of E. *)
Lemma batch_chunked_sessionState_witness :
  exists response s',
    batch R two 4 Mock.five_calls None five_start
    = Some (Success response, s') /\
    sessionState response = "s3".
Proof.
  destruct (batch_chunked_sessionState R two 4 Mock.five_calls None
              five_start)
    as (chunks & Hs & Hb); [reflexivity|reflexivity|reflexivity|].
  vm_compute in Hs. injection Hs as <-.
  edestruct Hb as (earlier & lastResponse & response & He & Hr & Hst);
    [run_exchanges|].
  exists response. eexists. split; [exact Hr|].
  rewrite Hst.
  change [?a; ?b; ?c] with ([a; b] ++ [c]) in He.
  apply app_inj_tail in He. destruct He as [_ <-]. reflexivity.
Defined.

(** In the same run the combined response has no [createdIds], though the
    responses to the first and to the last chunk carry one. *)
Lemma batch_createdIds_witness :
  exists response s',
    batch R two 4 Mock.five_calls None five_start
    = Some (Success response, s') /\
    createdIds response = None.
Proof.
  destruct (proj1 (proj2 (batch_createdIds R two 4 Mock.five_calls None
                            five_start)))
    as (chunks & Hs & Hb); [reflexivity|reflexivity|reflexivity|].
  vm_compute in Hs. injection Hs as <-.
  edestruct Hb as (response & Hr & Hc); [run_exchanges|].
  exists response. eexists. split; [exact Hr|exact Hc].
Defined.

(** The second of the three chunks is answered with status 500: [batch]
    fails with that network error, and only two POSTs were started. *)
Lemma batch_chunk_failure_witness :
  exists s2,
    batch R two 4 Mock.five_calls None
      (Mock.start 0 [Mock.ok "session"; Mock.ok "AB"; Mock.status 500;
                     Mock.ok "E"])
    = Some (Failure (NetworkError "HTTP 500" None (Some 500)), s2) /\
    Mock.script (world s2) = [Mock.ok "E"].
Proof.
  edestruct (batch_chunk_failure R two 4 Mock.five_calls None
               (Mock.start 0 [Mock.ok "session"; Mock.ok "AB";
                              Mock.status 500; Mock.ok "E"])
               [[("A", JObj [], "1"); ("B", JObj [], "2")];
                [("C", JObj [], "3"); ("D", JObj [], "4")];
                [("E", JObj [], "5")]]
               [[("A", JObj [], "1"); ("B", JObj [], "2")]]
               [("C", JObj [], "3"); ("D", JObj [], "4")]
               [[("E", JObj [], "5")]])
    as (Hb & _).
  - reflexivity.
  - vm_compute. reflexivity.
  - reflexivity.
  - run_exchanges.
  - lazy. reflexivity.
  - discriminate.
  - eexists. split; [exact Hb|reflexivity].
Defined.

(** The API endpoint answers 401: the cache, filled by the session fetch,
    is absent afterwards. *)
Lemma api_unauthorized_witness :
  exists s3,
    executeJMAPRequest R plain (chunk_request default_using Mock.five_calls)
      (Mock.start 0 [Mock.ok "session"; Mock.status 401])
    = (Failure (AuthenticationError "Bearer token expired or invalid" None),
       s3) /\
    cache s3 = None /\
    length (trace s3) = 2%nat.
Proof.
  set (s := Mock.start 0 [Mock.ok "session"; Mock.status 401]).
  set (s1 := snd (getSession R plain s)).
  set (request := chunk_request default_using Mock.five_calls).
  set (s2 := snd (exchange R plain (apiRequest R plain Mock.the_session
                                      request)
                    "Failed to send JMAP request" s1)).
  destruct (api_unauthorized R plain request s Mock.the_session s1
              {| http_status := 401; text := inr "" |} s2)
    as (Hx & _); [vm_compute; reflexivity|vm_compute; reflexivity|reflexivity|].
  eexists. split; [exact Hx|]. split; reflexivity.
Defined.

(** The envelope holds a success for c0, then errors for c1 and for c2: the
    failure carries c1. *)
Lemma method_error_aborts_witness :
  exists s1,
    batch R plain 0 Mock.five_calls None
      (Mock.start 0 [Mock.ok "session"; Mock.ok "ok c0, error c1, error c2"])
    = Some (Failure (MethodError
                       {| type := Some (JStr "accountNotFound");
                          description := None; details := None;
                          callId := Some "c1" |}), s1).
Proof.
  set (s := Mock.start 0 [Mock.ok "session";
                          Mock.ok "ok c0, error c1, error c2"]).
  set (request := chunk_request default_using Mock.five_calls).
  set (before := [("Email/get", JObj [], "c0")] : list MethodResponse).
  set (after := [("error", JObj [("type", JStr "invalidArguments")], "c2")]
                : list MethodResponse).
  set (payload := JObj [("type", JStr "accountNotFound")]).
  destruct (proj1 (method_error_aborts R plain) request s
              {| methodResponses := before ++ ("error", payload, "c1") :: after;
                 createdIds := None; sessionState := "s1" |}
              (snd (decoded_envelope R plain request s))
              before payload "c1" after)
    as (_ & Hb & _);
    [vm_compute; reflexivity|reflexivity|repeat constructor|discriminate|].
  eexists. apply (Hb 0%nat Mock.five_calls None); [reflexivity|simpl; lia].
Defined.

(** The claim as it is worded fails on the same envelope: it holds an
    "error" invocation for c2, and the failure of [batch] does not carry
    c2. *)
Lemma method_error_second_counterexample :
  let s := Mock.start 0 [Mock.ok "session";
                         Mock.ok "ok c0, error c1, error c2"] in
  exists jmapResponse s1 payload,
    decoded_envelope R plain (chunk_request default_using Mock.five_calls) s
    = (Success jmapResponse, s1) /\
    In ("error", payload, "c2") (methodResponses jmapResponse) /\
    ~ (exists e,
         batch R plain 0 Mock.five_calls None s
         = Some (Failure (MethodError e), s1) /\
         callId e = Some "c2").
Proof.
  intro s. eexists. eexists. eexists.
  split; [lazy; reflexivity|].
  split; [right; right; left; reflexivity|].
  intros (e & He & Hc). vm_compute in He.
  injection He as <-. discriminate.
Qed.

(** Extraction of a pair that the response does not hold, and of a pair
    whose payload the schema rejects. *)
Lemma extractMethodResponse_failures_witness :
  let response :=
    {| methodResponses := [("Email/get", JObj [], "c0")];
       createdIds := None; sessionState := "s1" |} in
  let schema := fun _ : json => @inl JsError unit (ParseError "is missing") in
  extractMethodResponse response "Email/get" "c1" schema
  = Failure (MethodError
               {| type := Some (JStr "serverFail");
                  description :=
                    Some (JStr "Method response not found for Email/get");
                  details := None; callId := Some "c1" |}) /\
  extractMethodResponse response "Email/get" "c0" schema
  = Failure (MethodError
               {| type := Some (JStr "serverFail");
                  description :=
                    Some (JStr "Invalid response format: is missing");
                  details := None; callId := Some "c0" |}).
Proof.
  intros response schema. split.
  - apply (proj1 (extractMethodResponse_failures schema response
                    "Email/get" "c1")).
    intros result [H|[]]. discriminate.
  - apply (proj2 (extractMethodResponse_failures schema response
                    "Email/get" "c0") [] (JObj []) [] (ParseError "is missing")).
    + reflexivity.
    + intros r [].
    + reflexivity.
Defined.

(** The failure for a pair that is absent is not of type [notFound]. *)
Lemma extractMethodResponse_notFound_counterexample :
  ~ (exists e,
       extractMethodResponse
         {| methodResponses := [("Email/get", JObj [], "c0")];
            createdIds := None; sessionState := "s1" |}
         "Email/get" "c1"
         (fun _ : json => @inr JsError unit tt)
       = Failure (MethodError e) /\
       type e = Some (JStr "notFound")).
Proof.
  intros (e & He & Ht). vm_compute in He.
  injection He as <-. discriminate.
Qed.

(** Two calls within the window make one fetch, and a call after the
    window a second one: the session is fetched at time 0 (and stamped 1,
    the exchange taking a millisecond), served from the cache at 300001,
    and fetched again at 300002. *)
Example getSession_twice :
  let later (time : Z) (s : ClientState R) :=
    Build_ClientState R (cache s)
      {| Mock.clock := time; Mock.script := Mock.script (world s) |}
      (trace s) in
  let s1 := snd (getSession R plain
                   (Mock.start 0 [Mock.ok "session"; Mock.ok "session"])) in
  let s2 := snd (getSession R plain (later 300001 s1)) in
  let s3 := snd (getSession R plain (later 300002 s2)) in
  fetched (trace s1) = 1%nat /\
  fetched (trace s2) = 1%nat /\
  fetched (trace s3) = 2%nat.
Proof. vm_compute. repeat split. Qed.

(** The envelope of one "error" invocation of type [accountNotFound] for
    c1. *)
Example batch_accountNotFound :
  option_map fst
    (batch R plain 0 Mock.five_calls None
       (Mock.start 0 [Mock.ok "session"; Mock.ok "error c1"]))
  = Some
      (Failure (MethodError
               {| type := Some (JStr "accountNotFound");
                  description := None; details := None;
                  callId := Some "c1" |})).
Proof. vm_compute. reflexivity. Qed.

(** An "error" invocation whose payload is [null]: building the method
    error throws, and the exchange ends with a defect. *)
Example executeJMAPRequest_null_payload :
  fst (executeJMAPRequest R plain
         (chunk_request default_using Mock.five_calls)
         (Mock.start 0 [Mock.ok "session";
                        Mock.ok "error with a null payload"]))
  = Die (TypeError "Cannot read properties of null (reading 'type')").
Proof. vm_compute. reflexivity. Qed.

(** A batch size of zero: splitting five calls does not end, whatever the
    fuel. *)
Example batch_size_zero :
  forall fuel s,
    batch R (Mock.config (Some 0)) fuel Mock.five_calls None s = None.
Proof.
  intros fuel s. unfold JMAPClient.batch. simpl.
  rewrite split_chunks_diverges; [reflexivity|lia|simpl; lia].
Qed.

End Scenarios.

(* ================================================================== *)
(** ** Retries, and what a request carries *)

Section Attempts.

Variable R : Runtime.
Variable config : JMAPClientConfig.

Local Abbreviation numbered request first n :=
  (map (fun k => {| ev_request := request; ev_attempt := first + k |})
     (seq 0 n)).












End Attempts.

(* ================================================================== *)
(** ** What the operations do to the cache *)

Section CacheInvariant.

Variable R : Runtime.
Variable config : JMAPClientConfig.

Local Abbreviation expired :=
  (AuthenticationError "Bearer token expired or invalid" None).

Lemma cache_outcome_refl : forall s, cache_outcome R s s.
Proof. intro s. left. reflexivity. Qed.

Lemma cache_outcome_trans :
  forall s s1 s2,
    cache_outcome R s s1 -> cache_outcome R s1 s2 -> cache_outcome R s s2.
Proof.
  intros s s1 s2 H1 [H2|[H2|H2]].
  - destruct H1 as [H1|[H1|(st & j & H1 & Hd)]].
    + left. congruence.
    + right. left. congruence.
    + right. right. exists st, j. split; [congruence|exact Hd].
  - right. left. exact H2.
  - right. right. exact H2.
Qed.

(** A session that [getSession] returns is in the cache afterwards, and
    [getSession] never empties a cache. *)
Lemma getSession_cache :
  forall s out s',
    getSession R config s = (out, s') ->
    cache_outcome R s s' /\
    (cache s' = None -> cache s = None) /\
    (forall sess, out = Success sess ->
                  exists st, cache s' = Some st /\ session st = sess).
Proof.
  intros s out s' H. destruct (needs_fetch R s) eqn:N.
  - rewrite (getSession_fetch R config s N) in H.
    apply fetchSession_inv in H.
    destruct H as [_ [[Hc Hout]|(resp & txt & j & sess & _ & _ & _ & Hd & -> & Hc)]].
    + split; [left; exact Hc|]. split; [congruence|].
      intros sess ->. exfalso. exact (Hout sess eq_refl).
    + split.
      * right. right. eexists. exists j. split; [exact Hc|exact Hd].
      * split; [rewrite Hc; discriminate|].
        intros sess' Heq. inversion Heq; subst.
        eexists. split; [exact Hc|reflexivity].
  - destruct (getSession_cached R config s N) as (st & Hc & Hg).
    rewrite Hg in H. inversion H; subst.
    split; [apply cache_outcome_refl|]. split; [auto|].
    intros sess Heq. inversion Heq; subst. exists st. auto.
Qed.

Lemma executeJMAPRequest_cache :
  forall request s out s',
    executeJMAPRequest R config request s = (out, s') ->
    cache_outcome R s s' /\
    (cache s' = None -> cache s = None \/ out = Failure expired) /\
    (forall response, out = Success response -> cache s' <> None).
Proof.
  intros request s out s'.
  rewrite executeJMAPRequest_envelope, decoded_envelope_exchange.
  destruct (getSession R config s) as [[sess|e|d] s1] eqn:G;
    apply getSession_cache in G; destruct G as (Ho & Hn & Hs);
    try (intro H; inversion H; subst;
         split; [exact Ho|split; [auto|discriminate]]).
  destruct (Hs sess eq_refl) as (st & Hst & _).
  destruct (exchange R config (apiRequest R config sess request)
              "Failed to send JMAP request" s1)
    as [[response|e|d] s2] eqn:E;
    apply exchange_inv in E; destruct E as (Hc & _ & _);
    assert (Ho2 : cache_outcome R s s2)
      by (eapply cache_outcome_trans; [exact Ho|left; exact Hc]);
    assert (Hne : cache s2 <> None) by (rewrite Hc, Hst; discriminate);
    try (intro H; inversion H; subst;
         split; [exact Ho2|split; [intro; contradiction|discriminate]]).
  destruct (http_status response =? 401).
  { intro H; inversion H; subst. simpl.
    split; [right; left; reflexivity|]. split; [auto|discriminate]. }
  destruct (negb (http_status response =? 200));
    [intro H; inversion H; subst;
     split; [exact Ho2|split; [intro; contradiction|discriminate]]|].
  destruct (text response) as [err|jsonText];
    [intro H; inversion H; subst;
     split; [exact Ho2|split; [intro; contradiction|discriminate]]|].
  destruct (JSON_parse R jsonText) as [err|jsonData];
    [intro H; inversion H; subst;
     split; [exact Ho2|split; [intro; contradiction|discriminate]]|].
  destruct (decodeUnknown_Response R jsonData) as [err|r];
    [intro H; inversion H; subst;
     split; [exact Ho2|split; [intro; contradiction|discriminate]]|].
  destruct (check_method_errors (methodResponses r));
    intro H; inversion H; subst;
    (split; [exact Ho2|split; [intro; contradiction|]]);
    try discriminate.
  intros _ _. exact Hne.
Qed.

Lemma run_chunks_cache :
  forall using_ chunks allResponses latest s out s',
    run_chunks R config using_ chunks allResponses latest s = (out, s') ->
    cache_outcome R s s' /\
    (cache s' = None -> cache s = None \/ out = Failure expired).
Proof.
  intros using_ chunks.
  induction chunks as [|chunk rest IH]; intros allResponses latest s out s' H.
  - inversion H; subst. split; [apply cache_outcome_refl|auto].
  - rewrite run_chunks_step in H.
    destruct (executeJMAPRequest R config (chunk_request using_ chunk) s)
      as [[r|e|d] s1] eqn:E;
      apply executeJMAPRequest_cache in E; destruct E as (Ho & Hn & Hs);
      try (inversion H; subst; split; assumption).
    apply IH in H. destruct H as [Ho2 Hn2].
    split; [eapply cache_outcome_trans; eassumption|].
    intro Hnone. destruct (Hn2 Hnone) as [H1|H1]; [|right; exact H1].
    exfalso. exact (Hs r eq_refl H1).
Qed.

(** X3. Whatever its outcome, [batch] leaves the cache as it was, absent,
    or holding a session that the [Session] schema decoded; and a cache
    that held a session is absent afterwards only when [batch] failed with
    the authentication error of the API endpoint. *)
Theorem batch_cache :
  forall fuel methodCalls using_ s out s',
    batch R config fuel methodCalls using_ s = Some (out, s') ->
    cache_outcome R s s' /\
    (cache s' = None -> cache s = None \/ out = Failure expired).
Proof.
  intros fuel methodCalls using_ s out s' H.
  destruct (Z.of_nat (length methodCalls) >? maxBatchSize config ?? 50)
    eqn:E.
  - apply Z.gtb_lt in E. rewrite batch_chunked in H by assumption.
    destruct (split_chunks fuel methodCalls _ 0 []) as [chunks|];
      [|discriminate].
    inversion H as [H']. exact (run_chunks_cache _ _ _ _ _ _ _ H').
  - rewrite Z.gtb_ltb in E. apply Z.ltb_ge in E.
    rewrite batch_single in H by assumption.
    inversion H as [H']. apply executeJMAPRequest_cache in H'. tauto.
Qed.

(** X4. A session that [getSession] returns is the one in the cache
    afterwards, stamped with the time of the clock when it was fetched by
    this call; from any later state with that cache whose clock is at most
    five minutes past the stamp, [getSession] returns the same session and
    changes nothing (no exchange). *)
Theorem getSession_reuse :
  forall s sess s1,
    getSession R config s = (Success sess, s1) ->
    exists st,
      cache s1 = Some st /\
      session st = sess /\
      (needs_fetch R s = true -> lastUpdated st = now R (world s1)) /\
      forall s2,
        cache s2 = cache s1 ->
        now R (world s2) - lastUpdated st <= 5 * 60 * 1000 ->
        getSession R config s2 = (Success sess, s2).
Proof.
  intros s sess s1 H.
  destruct (getSession_cache _ _ _ H) as (_ & _ & Hs).
  destruct (Hs sess eq_refl) as (st & Hst & Hsess).
  exists st. split; [exact Hst|]. split; [exact Hsess|]. split.
  - intro N. rewrite (getSession_fetch R config s N) in H.
    apply fetchSession_inv in H.
    destruct H as [_ [[_ Hout]|(resp & txt & j & sess' & _ & _ & _ & _ & _ & Hc)]].
    + exfalso. exact (Hout sess eq_refl).
    + rewrite Hc in Hst. inversion Hst; subst. reflexivity.
  - intros s2 Hc Hage.
    assert (N : needs_fetch R s2 = false).
    { unfold needs_fetch. rewrite Hc, Hst. apply Z.ltb_ge. lia. }
    destruct (getSession_cached R config s2 N) as (st' & Hc' & Hg).
    rewrite Hc, Hst in Hc'. inversion Hc'; subst. exact Hg.
Qed.

End CacheInvariant.

(* ================================================================== *)
(** ** The single exchange, [request], and the shape of the chunks *)

Section SingleExchange.

Variable R : Runtime.
Variable config : JMAPClientConfig.

Local Abbreviation size := (maxBatchSize config ?? 50).
Local Abbreviation sent_body request :=
  (Some (HttpBody_text (JSON_stringify R request))).

(** X5. With no more calls than [maxBatchSize] (none included), [batch]
    returns for every fuel, and between its start and its end at most one
    POST is started, whose body is the serialization of the one request
    that holds all the calls; when [batch] succeeds exactly that POST was
    started. *)
Theorem batch_single_exchange :
  forall fuel methodCalls using_ s,
    Z.of_nat (length methodCalls) <= size ->
    exists out s',
      batch R config fuel methodCalls using_ s = Some (out, s') /\
      (exists sent,
         posted (trace s') = posted (trace s) ++ sent /\
         (sent = [] \/
          sent = [sent_body (chunk_request (using_ ?? default_using)
                               methodCalls)])) /\
      (forall response,
         out = Success response ->
         posted (trace s') =
         posted (trace s) ++
         [sent_body (chunk_request (using_ ?? default_using) methodCalls)]).
Proof.
  intros fuel methodCalls using_ s Hlen.
  rewrite batch_single by assumption.
  destruct (executeJMAPRequest R config
              (chunk_request (using_ ?? default_using) methodCalls) s)
    as [out s'] eqn:E.
  exists out, s'. split; [reflexivity|]. split.
  - exact (executeJMAPRequest_posted_any _ _ _ _ _ _ E).
  - intros response ->. apply executeJMAPRequest_posted in E. tauto.
Qed.

(** X6. [request] never splits: whatever the number of calls of the
    request, at most one POST is started, whose body is the serialization
    of the request as it was given ([createdIds] included). When the
    exchange succeeds, the outcome is the value the schema decodes from the
    envelope, or a network error "Response does not match expected schema"
    when the schema rejects it; a failure of the exchange is the failure of
    [request]. *)
Theorem request_single_exchange :
  forall (T : Type) (request : Request)
         (responseSchema : Response -> JsError + T) s out s',
    Dispatcher.request R config request responseSchema s = (out, s') ->
    (exists sent,
       posted (trace s') = posted (trace s) ++ sent /\
       (sent = [] \/ sent = [sent_body request])) /\
    (forall jmapResponse s1,
       executeJMAPRequest R config request s = (Success jmapResponse, s1) ->
       s' = s1 /\
       (forall value, responseSchema jmapResponse = inr value ->
                      out = Success value) /\
       (forall error, responseSchema jmapResponse = inl error ->
                      out = Failure
                              (NetworkError
                                 "Response does not match expected schema"
                                 (Some error) None))) /\
    (forall e s1,
       executeJMAPRequest R config request s = (Failure e, s1) ->
       s' = s1 /\ out = Failure e).
Proof.
  intros T request responseSchema s out s'.
  unfold Dispatcher.request, bind.
  destruct (executeJMAPRequest R config request s) as [[r|e|d] s1] eqn:E;
    pose proof (executeJMAPRequest_posted_any _ _ _ _ _ _ E) as Hp.
  - destruct (responseSchema r) as [error|value] eqn:D;
      unfold succeed, fail; intro H; inversion H; subst;
      (split; [exact Hp|]); (split; [|intros; discriminate]);
      intros r' s1' Heq; inversion Heq; subst;
      (split; [reflexivity|]); rewrite D; split; intros x Hx;
      inversion Hx; reflexivity.
  - intro H; inversion H; subst.
    split; [exact Hp|]. split; [intros; discriminate|].
    intros e' s1' Heq. inversion Heq; subst. auto.
  - intro H; inversion H; subst.
    split; [exact Hp|]. split; intros; discriminate.
Qed.

Lemma split_chunks_nth :
  forall fuel (methodCalls : list Invocation) m i chunks result,
    0 < m ->
    0 <= i ->
    split_chunks fuel methodCalls m i chunks = Some result ->
    exists more,
      result = chunks ++ more /\
      forall k,
        (k < length more)%nat ->
        nth k more [] =
        firstn (Z.to_nat m)
          (skipn (Z.to_nat i + k * Z.to_nat m) methodCalls) /\
        i + Z.of_nat k * m < Z.of_nat (length methodCalls).
Proof.
  induction fuel as [|fuel IH];
    intros methodCalls m i chunks result Hm Hi H; [discriminate|].
  simpl in H. destruct (i <? Z.of_nat (length methodCalls)) eqn:E.
  - apply Z.ltb_lt in E.
    apply IH in H; [|assumption|lia].
    destruct H as (more & -> & Hnth).
    exists (js_slice methodCalls i (i + m) :: more).
    split; [rewrite <- app_assoc; reflexivity|].
    intros [|k] Hk.
    + simpl. rewrite Nat.add_0_r. split; [|lia].
      rewrite js_slice_chunk by lia.
      destruct (Z.le_gt_cases m (Z.of_nat (length methodCalls) - i)).
      * f_equal. lia.
      * replace (Z.min m (Z.of_nat (length methodCalls) - i))
          with (Z.of_nat (length methodCalls) - i) by lia.
        rewrite !firstn_all2; [reflexivity| |];
          rewrite length_skipn; lia.
    + simpl in Hk. destruct (Hnth k ltac:(lia)) as [Hn Hb].
      split; [|lia]. simpl nth. rewrite Hn. f_equal. f_equal. lia.
  - inversion H; subst. exists []. rewrite app_nil_r.
    split; [reflexivity|]. simpl. intros k Hk. lia.
Qed.

(** X7. With a positive [maxBatchSize], the chunk of index [k] that the
    splitting loop produces is the [maxBatchSize] calls from position
    [k * maxBatchSize] on (fewer when the calls end before); every chunk
    but the last therefore holds exactly [maxBatchSize] calls. *)
Theorem split_chunks_full :
  forall fuel (methodCalls : list Invocation) m chunks,
    0 < m ->
    split_chunks fuel methodCalls m 0 [] = Some chunks ->
    forall k,
      (k < length chunks)%nat ->
      nth k chunks [] =
      firstn (Z.to_nat m) (skipn (k * Z.to_nat m) methodCalls) /\
      ((S k < length chunks)%nat ->
       length (nth k chunks []) = Z.to_nat m).
Proof.
  intros fuel methodCalls m chunks Hm H k Hk.
  destruct (split_chunks_nth _ _ _ _ _ _ Hm (Z.le_refl 0) H)
    as (more & Hr & Hnth).
  simpl in Hr. subst more.
  destruct (Hnth k Hk) as [Hn _]. simpl in Hn.
  split; [exact Hn|].
  intro Hk'. destruct (Hnth (S k) Hk') as [_ Hb].
  rewrite Hn, length_firstn, length_skipn. nia.
Qed.

(** X8. With a [maxBatchSize] of zero or less, [batch] of a non-empty list
    never gets through the splitting loop, whatever the fuel; and with a
    negative [maxBatchSize], [batch] of the empty list returns an empty
    response with the empty [sessionState] in the state it started from,
    without any exchange. *)
Theorem batch_nonpositive_size :
  forall fuel methodCalls using_ s,
    size <= 0 ->
    size < Z.of_nat (length methodCalls) ->
    (methodCalls <> [] ->
     batch R config fuel methodCalls using_ s = None) /\
    (methodCalls = [] ->
     (0 < fuel)%nat ->
     batch R config fuel methodCalls using_ s =
     Some (Success {| methodResponses := []; createdIds := None;
                      sessionState := "" |}, s)).
Proof.
  intros fuel methodCalls using_ s Hsize Hlen.
  rewrite batch_chunked by assumption. split.
  - intro Hne. rewrite split_chunks_diverges; [reflexivity|assumption|].
    destruct methodCalls; [contradiction|simpl; lia].
  - intros -> Hfuel. destruct fuel as [|fuel]; [lia|]. reflexivity.
Qed.

End SingleExchange.

(* ================================================================== *)
(** ** Extraction, method errors and the service layer *)

Section Correlation.

Context {A : Type}.
Variable schema : json -> JsError + A.

Lemma find_matches :
  forall methodName callId (responses : list MethodResponse),
    find (fun r : MethodResponse =>
            let '(name, _, id) := r in
            String.eqb name methodName && String.eqb id callId) responses
    = find (matches methodName callId) responses.
Proof. reflexivity. Qed.

Lemma find_skip :
  forall methodName callId before rest,
    Forall (fun r => matches methodName callId r = false) before ->
    find (matches methodName callId) (before ++ rest)
    = find (matches methodName callId) rest.
Proof.
  induction 1 as [|r before Hr _ IH]; [reflexivity|].
  simpl. rewrite Hr. exact IH.
Qed.

Lemma matches_refl :
  forall methodName callId result,
    matches methodName callId (methodName, result, callId) = true.
Proof.
  intros. unfold matches. rewrite !String.eqb_refl. reflexivity.
Qed.

Lemma matches_true :
  forall methodName callId name result id,
    matches methodName callId (name, result, id) = true ->
    name = methodName /\ id = callId.
Proof.
  unfold matches. intros methodName callId name result id H.
  apply andb_true_iff in H. destruct H as [H1 H2].
  apply String.eqb_eq in H1, H2. auto.
Qed.

(** X9. Extraction looks at the first invocation that has the method name
    and the call id, and at nothing else: the invocations before it (of
    other names or call ids), those after it (also ones with the same name
    and call id), [createdIds] and [sessionState] do not change the
    outcome; when the schema accepts the payload of that invocation, the
    decoded value is returned. *)
Theorem extractMethodResponse_first_match :
  forall response methodName callId before result after,
    methodResponses response
    = before ++ (methodName, result, callId) :: after ->
    Forall (fun r => matches methodName callId r = false) before ->
    extractMethodResponse response methodName callId schema
    = extractMethodResponse
        {| methodResponses := [(methodName, result, callId)];
           createdIds := None; sessionState := "" |}
        methodName callId schema /\
    (forall a, schema result = inr a ->
               extractMethodResponse response methodName callId schema
               = Success a).
Proof.
  intros response methodName callId before result after Hm Hb.
  assert (Hf : find (matches methodName callId) (methodResponses response)
               = Some (methodName, result, callId)).
  { rewrite Hm, (find_skip _ _ _ _ Hb). cbn [find].
    rewrite matches_refl. reflexivity. }
  assert (Hf1 : find (matches methodName callId)
                  [(methodName, result, callId)]
                = Some (methodName, result, callId)).
  { cbn [find]. rewrite matches_refl. reflexivity. }
  unfold extractMethodResponse, js_not_array.
  cbn [methodResponses]. rewrite !find_matches, Hf, Hf1.
  split; [reflexivity|]. intros a ->. reflexivity.
Qed.

(** X10. Extraction either returns a value, and then the schema decoded it
    from the payload of an invocation of the response with the method name
    and the call id, or it fails with a method error of type [serverFail]
    with a description, no details and the call id that was asked for; it
    never ends with a defect or with another kind of error. *)
Theorem extractMethodResponse_outcome :
  forall response methodName callId,
    (exists a result,
       extractMethodResponse response methodName callId schema = Success a /\
       In (methodName, result, callId) (methodResponses response) /\
       schema result = inr a) \/
    (exists text,
       extractMethodResponse response methodName callId schema
       = Failure (MethodError
                    {| type := Some (JStr "serverFail");
                       description := Some (JStr text);
                       details := None;
                       callId := Some callId |})).
Proof.
  intros response methodName callId.
  unfold extractMethodResponse, js_not_array. rewrite find_matches.
  destruct (find (matches methodName callId) (methodResponses response))
    as [[[name result] id]|] eqn:F.
  - apply find_some in F. destruct F as [Hin Hm].
    apply matches_true in Hm. destruct Hm as [-> ->].
    destruct (schema result) as [error|a] eqn:D.
    + right. eexists. reflexivity.
    + left. exists a, result. auto.
  - right. eexists. reflexivity.
Qed.

End Correlation.

Section MethodErrorFacts.

(** X11. [Errors.methodError] and [JMAPMethodError.fromMethodError] build
    the same error: reading the object literal of a type, a description and
    details back through [fromMethodError] gives the error that
    [Errors.methodError] makes of them, members that are absent staying
    absent. *)
Theorem fromMethodError_literal :
  forall type description details callId,
    fromMethodError (MethodErrors.literal type description details) callId
    = inr (MethodErrors.methodError type description details callId).
Proof.
  intros type description details callId.
  destruct description, details; reflexivity.
Qed.

(** X12. The message of a method error built from a payload that is not
    [null]: the description of the payload when it has one that is not
    [null], whatever its type; otherwise "JMAP Method Error: " followed by
    the type, which reads "undefined" when the payload has no type. *)
Theorem message_of_payload :
  forall payload callId,
    payload <> JNull ->
    exists e,
      fromMethodError payload callId = inr e /\
      (forall text,
         property payload "description" = Some text ->
         text <> JNull ->
         MethodErrors.message e = text) /\
      ((property payload "description" = None \/
        property payload "description" = Some JNull) ->
       (forall t,
          property payload "type" = Some (JStr t) ->
          MethodErrors.message e = JStr ("JMAP Method Error: " ++ t)) /\
       (property payload "type" = None ->
        MethodErrors.message e = JStr "JMAP Method Error: undefined")).
Proof.
  intros payload callId Hp.
  eexists. split; [apply fromMethodError_not_null; exact Hp|].
  unfold MethodErrors.message. simpl. split.
  - intros text -> Hn. destruct text; try reflexivity. contradiction.
  - intros [->| ->]; split; intros; subst;
      repeat match goal with H : _ = _ |- _ => rewrite H end; reflexivity.
Qed.

End MethodErrorFacts.

Section Service.

Variable R : Runtime.
Variable config : JMAPClientConfig.
Context {A : Type}.
Variable schema : json -> JsError + A.

Local Abbreviation size := (maxBatchSize config ?? 50).
Local Abbreviation stamp s :=
  ("email-get-" ++ Z_toString (now R (world s)))%string.
Local Abbreviation the_request args s :=
  (chunk_request default_using
     (@cons Invocation ("Email/get", args, stamp s) (@nil Invocation))).

Lemma get_envelope :
  forall fuel args s jmapResponse s1,
    1 <= size ->
    decoded_envelope R config (the_request args s) s
    = (Success jmapResponse, s1) ->
    Forall (fun r => is_error r = false) (methodResponses jmapResponse) ->
    EmailService.get R config fuel args schema s
    = Some (extractMethodResponse jmapResponse "Email/get" (stamp s) schema,
            s1).
Proof.
  intros fuel args s jmapResponse s1 Hsize E Hno.
  unfold EmailService.get. cbv zeta.
  rewrite batch_single by (simpl; lia).
  change (None ?? default_using) with default_using.
  rewrite executeJMAPRequest_envelope, E, (check_no_error _ Hno).
  reflexivity.
Qed.

(** X13. With a [maxBatchSize] of one or more, when the exchange of the
    single call "Email/get" decodes an envelope without "error"
    invocations whose first invocation named "Email/get" under the call id
    "email-get-" followed by the time of the clock at the call carries a
    payload that the schema accepts, [get] returns the decoded value, for
    every fuel, in the state that the exchange left. *)
Theorem get_returns_payload :
  forall fuel args s jmapResponse s1 before payload after a,
    1 <= size ->
    decoded_envelope R config (the_request args s) s
    = (Success jmapResponse, s1) ->
    Forall (fun r => is_error r = false) (methodResponses jmapResponse) ->
    methodResponses jmapResponse
    = before ++ ("Email/get", payload, stamp s) :: after ->
    Forall (fun r => matches "Email/get" (stamp s) r = false) before ->
    schema payload = inr a ->
    EmailService.get R config fuel args schema s = Some (Success a, s1).
Proof.
  intros fuel args s jmapResponse s1 before payload after a
    Hsize E Hno Hm Hb Hd.
  rewrite (get_envelope fuel args s jmapResponse s1 Hsize E Hno).
  unfold extractMethodResponse, js_not_array.
  rewrite find_matches, Hm, (find_skip _ _ _ _ Hb). cbn [find].
  rewrite matches_refl, Hd. reflexivity.
Qed.

(** X14. With a [maxBatchSize] of one or more, when the envelope that the
    exchange decodes has no "error" invocation and no invocation named
    "Email/get" under the call id of this call (the server answered under
    another call id, or not at all), [get] fails with the method error of
    type [serverFail] "Method response not found for Email/get", which
    carries the call id of this call. *)
Theorem get_response_missing :
  forall fuel args s jmapResponse s1,
    1 <= size ->
    decoded_envelope R config (the_request args s) s
    = (Success jmapResponse, s1) ->
    Forall (fun r => is_error r = false) (methodResponses jmapResponse) ->
    Forall (fun r => matches "Email/get" (stamp s) r = false)
      (methodResponses jmapResponse) ->
    EmailService.get R config fuel args schema s =
    Some (Failure (MethodError
                     {| type := Some (JStr "serverFail");
                        description :=
                          Some (JStr
                                  "Method response not found for Email/get");
                        details := None;
                        callId := Some (stamp s) |}), s1).
Proof.
  intros fuel args s jmapResponse s1 Hsize E Hno Hnone.
  rewrite (get_envelope fuel args s jmapResponse s1 Hsize E Hno).
  unfold extractMethodResponse, js_not_array.
  rewrite find_matches.
  rewrite <- (app_nil_r (methodResponses jmapResponse)).
  rewrite (find_skip _ _ _ _ Hnone). reflexivity.
Qed.

End Service.

(* ================================================================== *)
(** ** Statuses that are not retried, and the test client *)

Section Statuses.

Variable R : Runtime.
Variable config : JMAPClientConfig.

Local Abbreviation http_failure response :=
  (NetworkError ("HTTP " ++ Z_toString (http_status response)) None
     (Some (http_status response))).

(** X15. A response whose status is neither 200 nor 401 is not retried:
    when the first attempt of the session fetch receives one, [getSession]
    fails with the network error "HTTP" followed by the status, which it
    carries, after that one attempt and with the cache as it was; when the
    first attempt of the API exchange receives one, [executeJMAPRequest]
    fails in the same way, with the cache as [getSession] left it. *)
Theorem status_not_retried :
  (forall s response w',
     needs_fetch R s = true ->
     execute R (sessionRequest config) (world s) = (inr response, w') ->
     http_status response <> 200 ->
     http_status response <> 401 ->
     getSession R config s =
     (Failure (http_failure response),
      {| cache := cache s; world := w';
         trace := trace s ++ [{| ev_request := sessionRequest config;
                                 ev_attempt := 0 |}] |})) /\
  (forall request s sess s1 response w',
     getSession R config s = (Success sess, s1) ->
     execute R (apiRequest R config sess request) (world s1)
     = (inr response, w') ->
     http_status response <> 200 ->
     http_status response <> 401 ->
     executeJMAPRequest R config request s =
     (Failure (http_failure response),
      {| cache := cache s1; world := w';
         trace := trace s1 ++
                  [{| ev_request := apiRequest R config sess request;
                      ev_attempt := 0 |}] |})).
Proof.
  split.
  - intros s response w' N E H200 H401.
    rewrite (getSession_fetch R config s N), fetchSession_exchange.
    rewrite (exchange_first_attempt R config _ _ _ _ _ E).
    apply Z.eqb_neq in H200, H401. rewrite H401, H200. reflexivity.
  - intros request s sess s1 response w' G E H200 H401.
    rewrite executeJMAPRequest_envelope, decoded_envelope_exchange, G.
    rewrite (exchange_first_attempt R config _ _ _ _ _ E).
    apply Z.eqb_neq in H200, H401. rewrite H401, H200. reflexivity.
Qed.

End Statuses.

Section TestClient.

Variable R : Runtime.
Variable config : JMAPClientTest.JMAPTestConfig.

Local Abbreviation mock_answer call :=
  (let '(methodName, args, callId) := call : Invocation in
   (methodName, JObj [("accountId", JMAPClientTest.accountId_of args)],
    callId)).

Lemma first_matching :
  forall methodName callId args (calls : list Invocation),
    In (methodName, args, callId) calls ->
    exists before args' after,
      calls = before ++ (methodName, args', callId) :: after /\
      Forall (fun r => matches methodName callId r = false) before.
Proof.
  intros methodName callId args calls.
  induction calls as [|[[name x] id] rest IH]; intro Hin; [contradiction|].
  destruct (matches methodName callId (name, x, id)) eqn:M.
  - apply matches_true in M. destruct M as [-> ->].
    exists [], x, rest. split; [reflexivity|constructor].
  - destruct Hin as [Heq|Hin].
    + inversion Heq; subst. rewrite matches_refl in M. discriminate.
    + destruct (IH Hin) as (before & args' & after & -> & Hb).
      exists ((name, x, id) :: before), args', after.
      split; [reflexivity|]. constructor; assumption.
Qed.

Lemma mock_answer_matches :
  forall methodName callId (calls : list Invocation),
    Forall (fun r => matches methodName callId r = false) calls ->
    Forall (fun r => matches methodName callId r = false)
      (map (fun call => mock_answer call) calls).
Proof.
  induction 1 as [|[[name x] id] rest Hr _ IH]; simpl; constructor;
    assumption.
Qed.

Lemma simulateDelay_state :
  forall s,
    exists s',
      JMAPClientTest.simulateDelay R config s = (Success tt, s') /\
      cache s' = cache s /\ trace s' = trace s.
Proof.
  intro s. unfold JMAPClientTest.simulateDelay.
  destruct (JMAPClientTest.simulateNetworkDelay config) as [d|];
    [destruct (d =? 0)|]; eexists; split; try reflexivity; auto.
Qed.

(** X16. When errors are not simulated, the [batch] of the test client
    succeeds for any number of calls, touches neither the cache nor the
    HTTP client, and answers every call: the response has one invocation
    per call, in the order of the calls, under the same method names and
    call ids, and the [sessionState] of the mock session; the extraction of
    a call of the batch therefore never fails as "not found": it is the
    extraction of the mock answer to the first call with that method name
    and call id. *)
Theorem test_batch_answers_every_call :
  forall methodCalls using_ s,
    JMAPClientTest.simulateErrors config ?? false = false ->
    exists response s',
      JMAPClientTest.batch R config methodCalls using_ s
      = (Success response, s') /\
      cache s' = cache s /\
      trace s' = trace s /\
      map (fun r : MethodResponse => (fst (fst r), snd r))
        (methodResponses response)
      = map (fun c : Invocation => (fst (fst c), snd c)) methodCalls /\
      sessionState response = state (JMAPClientTest.mockSession config) /\
      forall (A : Type) (schema : json -> JsError + A)
             methodName args callId,
        In (methodName, args, callId) methodCalls ->
        exists args',
          In (methodName, args', callId) methodCalls /\
          extractMethodResponse response methodName callId schema =
          extractMethodResponse
            {| methodResponses :=
                 [(methodName,
                   JObj [("accountId", JMAPClientTest.accountId_of args')],
                   callId)];
               createdIds := None; sessionState := "" |}
            methodName callId schema.
Proof.
  intros methodCalls using_ s Herr.
  destruct (simulateDelay_state s) as (s' & Hd & Hc & Ht).
  eexists. exists s'. split.
  { unfold JMAPClientTest.batch, bind. rewrite Hd, Herr. reflexivity. }
  split; [exact Hc|]. split; [exact Ht|]. cbn [methodResponses sessionState].
  split.
  { rewrite map_map. apply map_ext. intros [[name x] id]. reflexivity. }
  split; [reflexivity|].
  intros A schema methodName args callId Hin.
  destruct (first_matching _ _ _ _ Hin) as (before & args' & after & -> & Hb).
  exists args'. split; [apply in_elt|].
  unfold extractMethodResponse, js_not_array. cbn [methodResponses].
  rewrite !find_matches, map_app.
  rewrite (find_skip _ _ _ _ (mock_answer_matches _ _ _ Hb)).
  cbn [map find]. rewrite !matches_refl. reflexivity.
Qed.

End TestClient.

(* ================================================================== *)
(** ** The further properties on the scripted servers *)

Section MoreScenarios.

Local Abbreviation R := Mock.runtime.
Local Abbreviation plain := (Mock.config None).
Local Abbreviation two := (Mock.config (Some 2)).



(** The API endpoint answers 401: the cache that the session fetch filled
    is absent, and the failure is the authentication error. *)
Lemma batch_cache_witness :
  exists out s',
    batch R plain 0 Mock.five_calls None
      (Mock.cached 0 10 [Mock.status 401])
    = Some (out, s') /\
    cache s' = None /\
    out = Failure (AuthenticationError "Bearer token expired or invalid"
                     None).
Proof.
  set (s := Mock.cached 0 10 [Mock.status 401]).
  set (r := executeJMAPRequest R plain
              (chunk_request default_using Mock.five_calls) s).
  destruct (batch_cache R plain 0 Mock.five_calls None s (fst r) (snd r))
    as (_ & Hn); [vm_compute; reflexivity|].
  exists (fst r), (snd r). split; [vm_compute; reflexivity|].
  split; [reflexivity|].
  destruct (Hn eq_refl) as [H|H]; [discriminate H|exact H].
Defined.

(** A session fetched at time 0 (stamped 1) is returned again at time
    300001, with no exchange. *)
Lemma getSession_reuse_witness :
  let s1 := snd (getSession R plain (Mock.start 0 [Mock.ok "session"])) in
  let s2 :=
    Build_ClientState R (cache s1)
      {| Mock.clock := 300001; Mock.script := [] |} (trace s1) in
  getSession R plain s2 = (Success Mock.the_session, s2).
Proof.
  intros s1 s2.
  destruct (getSession_reuse R plain (Mock.start 0 [Mock.ok "session"])
              Mock.the_session s1)
    as (st & Hst & _ & Hstamp & Hreuse); [vm_compute; reflexivity|].
  apply Hreuse; [reflexivity|].
  rewrite (Hstamp eq_refl). vm_compute. discriminate.
Defined.

(** Five calls under the default size of fifty: one POST. *)
Lemma batch_single_exchange_witness :
  exists out s',
    batch R plain 0 Mock.five_calls None
      (Mock.start 0 [Mock.ok "session"; Mock.ok "AB"])
    = Some (out, s') /\
    map (option_map body_text) (posted (trace s'))
    = [Some "A#1,B#2,C#3,D#4,E#5"].
Proof.
  destruct (batch_single_exchange R plain 0 Mock.five_calls None
              (Mock.start 0 [Mock.ok "session"; Mock.ok "AB"]))
    as (out & s' & Hb & _ & Hp); [simpl; lia|].
  exists out, s'. split; [exact Hb|].
  vm_compute in Hb. injection Hb as <- <-. reflexivity.
Defined.

(** [request] with the five calls under a size of two: one POST with all
    of them, and the value that the schema reads off the envelope. *)
Lemma request_single_exchange_witness :
  exists s',
    Dispatcher.request R two
      (chunk_request default_using Mock.five_calls)
      (fun r => inr (sessionState r))
      (Mock.start 0 [Mock.ok "session"; Mock.ok "AB"])
    = (Success "s1", s') /\
    map (option_map body_text) (posted (trace s'))
    = [Some "A#1,B#2,C#3,D#4,E#5"].
Proof.
  set (s := Mock.start 0 [Mock.ok "session"; Mock.ok "AB"]).
  set (schema := fun r : Response => @inr JsError string (sessionState r)).
  set (r := Dispatcher.request R two
              (chunk_request default_using Mock.five_calls) schema s).
  destruct (request_single_exchange R two string
              (chunk_request default_using Mock.five_calls) schema s
              (fst r) (snd r))
    as ((sent & Hp & Hsent) & _ & _); [vm_compute; reflexivity|].
  exists (snd r). split; [vm_compute; reflexivity|].
  rewrite Hp. destruct Hsent as [->| ->]; [|reflexivity].
  vm_compute in Hp. discriminate Hp.
Defined.

(** The chunks of the five calls by two: the second is C and D, and has
    two calls. *)
Lemma split_chunks_full_witness :
  nth 1 [[("A", JObj [], "1"); ("B", JObj [], "2")];
         [("C", JObj [], "3"); ("D", JObj [], "4")];
         [("E", JObj [], "5")]] []
  = [("C", JObj [], "3"); ("D", JObj [], "4")] :> list Invocation.
Proof.
  destruct (split_chunks_full 4 Mock.five_calls 2
              [[("A", JObj [], "1"); ("B", JObj [], "2")];
               [("C", JObj [], "3"); ("D", JObj [], "4")];
               [("E", JObj [], "5")]]
              ltac:(reflexivity) ltac:(vm_compute; reflexivity)
              1%nat ltac:(simpl; lia)) as [Hn _].
  etransitivity; [exact Hn|reflexivity].
Defined.

(** A size of zero with the five calls, and a size of minus one with no
    call. *)
Lemma batch_nonpositive_size_witness :
  batch R (Mock.config (Some 0)) 1000 Mock.five_calls None (Mock.start 0 [])
  = None /\
  batch R (Mock.config (Some (-1))) 1 [] None (Mock.start 0 [])
  = Some (Success {| methodResponses := []; createdIds := None;
                     sessionState := "" |}, Mock.start 0 []).
Proof.
  split.
  - apply (proj1 (batch_nonpositive_size R (Mock.config (Some 0)) 1000
                    Mock.five_calls None (Mock.start 0 [])
                    ltac:(simpl; lia) ltac:(simpl; lia))).
    discriminate.
  - apply (proj2 (batch_nonpositive_size R (Mock.config (Some (-1))) 1
                    [] None (Mock.start 0 [])
                    ltac:(simpl; lia) ltac:(simpl; lia)));
      [reflexivity|lia].
Defined.

(** Two responses under the call id c1: the first one is extracted. *)
Lemma extractMethodResponse_first_match_witness :
  extractMethodResponse
    {| methodResponses :=
         [("Email/get", JStr "other", "c0");
          ("Email/get", JStr "first", "c1");
          ("Email/get", JStr "second", "c1")];
       createdIds := None; sessionState := "s1" |}
    "Email/get" "c1" (fun j => @inr JsError json j)
  = Success (JStr "first").
Proof.
  apply (proj2 (extractMethodResponse_first_match
                  (fun j => @inr JsError json j)
                  {| methodResponses :=
                       [("Email/get", JStr "other", "c0");
                        ("Email/get", JStr "first", "c1");
                        ("Email/get", JStr "second", "c1")];
                     createdIds := None; sessionState := "s1" |}
                  "Email/get" "c1"
                  [("Email/get", JStr "other", "c0")] (JStr "first")
                  [("Email/get", JStr "second", "c1")]
                  eq_refl ltac:(repeat constructor))).
  reflexivity.
Defined.

(** A payload with a description, and one without. *)
Lemma message_of_payload_witness :
  (exists e,
     fromMethodError
       (JObj [("type", JStr "rateLimit");
              ("description", JStr "slow down")]) (Some "c1") = inr e /\
     MethodErrors.message e = JStr "slow down") /\
  (exists e,
     fromMethodError (JObj [("type", JStr "accountNotFound")]) (Some "c1")
     = inr e /\
     MethodErrors.message e = JStr "JMAP Method Error: accountNotFound").
Proof.
  split.
  - destruct (message_of_payload
                (JObj [("type", JStr "rateLimit");
                       ("description", JStr "slow down")]) (Some "c1")
                ltac:(discriminate)) as (e & He & Hd & _).
    exists e. split; [exact He|].
    apply Hd; [reflexivity|discriminate].
  - destruct (message_of_payload
                (JObj [("type", JStr "accountNotFound")]) (Some "c1")
                ltac:(discriminate)) as (e & He & _ & Ht).
    exists e. split; [exact He|].
    apply (proj1 (Ht (or_introl eq_refl))). reflexivity.
Defined.

(** At time 0 the call id is email-get-0; the server answers under it. *)
Lemma get_returns_payload_witness :
  exists s1,
    EmailService.get Demo.runtime plain 0 (JObj []) Demo.has_list
      (Demo.start 0 [Mock.ok "session"; Mock.ok "get at 0"])
    = Some (Success (JArr []), s1).
Proof.
  set (s := Demo.start 0 [Mock.ok "session"; Mock.ok "get at 0"]).
  set (r := decoded_envelope Demo.runtime plain
              (chunk_request default_using
                 (@cons Invocation ("Email/get", JObj [], "email-get-0")
                    (@nil Invocation))) s).
  exists (snd r).
  apply (get_returns_payload Demo.runtime plain Demo.has_list 0 (JObj []) s
           {| methodResponses :=
                [("Email/get", JObj [("list", JArr [])], "email-get-0")];
              createdIds := None; sessionState := "s1" |}
           (snd r) [] (JObj [("list", JArr [])]) []).
  - simpl. lia.
  - vm_compute. reflexivity.
  - repeat constructor.
  - reflexivity.
  - constructor.
  - reflexivity.
Defined.

(** At time 0 the server answers under email-get-7: not found. *)
Lemma get_response_missing_witness :
  exists s1,
    EmailService.get Demo.runtime plain 0 (JObj []) Demo.has_list
      (Demo.start 0 [Mock.ok "session"; Mock.ok "get at 7"])
    = Some (Failure (MethodError
                       {| type := Some (JStr "serverFail");
                          description :=
                            Some (JStr
                                    "Method response not found for Email/get");
                          details := None;
                          callId := Some "email-get-0" |}), s1).
Proof.
  set (s := Demo.start 0 [Mock.ok "session"; Mock.ok "get at 7"]).
  set (r := decoded_envelope Demo.runtime plain
              (chunk_request default_using
                 (@cons Invocation ("Email/get", JObj [], "email-get-0")
                    (@nil Invocation))) s).
  exists (snd r).
  apply (get_response_missing Demo.runtime plain Demo.has_list 0 (JObj []) s
           {| methodResponses :=
                [("Email/get", JObj [("list", JArr [])], "email-get-7")];
              createdIds := None; sessionState := "s1" |}
           (snd r)).
  - simpl. lia.
  - vm_compute. reflexivity.
  - repeat constructor.
  - repeat constructor.
Defined.

(** The session endpoint answers 503 to the first attempt. *)
Lemma status_not_retried_witness :
  getSession R plain (Mock.start 0 [Mock.status 503; Mock.ok "session"])
  = (Failure (NetworkError "HTTP 503" None (Some 503)),
     Build_ClientState R None
       {| Mock.clock := 1; Mock.script := [Mock.ok "session"] |}
       [{| ev_request := sessionRequest plain; ev_attempt := 0 |}]).
Proof.
  apply (proj1 (status_not_retried R plain)
           (Mock.start 0 [Mock.status 503; Mock.ok "session"])
           {| http_status := 503; text := inr "" |}
           {| Mock.clock := 1; Mock.script := [Mock.ok "session"] |});
    [reflexivity|reflexivity|discriminate|discriminate].
Defined.

(** The test client answers the five calls, and the answer to C is
    found. *)
Lemma test_batch_answers_every_call_witness :
  let config :=
    {| JMAPClientTest.mockSession := Mock.the_session;
       JMAPClientTest.mockResponses := None;
       JMAPClientTest.simulateErrors := None;
       JMAPClientTest.simulateNetworkDelay := None |} in
  exists response s',
    JMAPClientTest.batch R config Mock.five_calls None (Mock.start 0 [])
    = (Success response, s') /\
    extractMethodResponse response "C" "3" (fun j => @inr JsError json j)
    = Success (JObj [("accountId", JStr "mock-account")]).
Proof.
  intro config.
  destruct (test_batch_answers_every_call R config Mock.five_calls None
              (Mock.start 0 []) eq_refl)
    as (response & s' & Hb & _ & _ & _ & _ & Hex).
  exists response, s'. split; [exact Hb|].
  destruct (Hex json (fun j => @inr JsError json j) "C" (JObj []) "3")
    as (args' & Hin & He).
  - right. right. left. reflexivity.
  - rewrite He.
    assert (Ha : args' = JObj []).
    { simpl in Hin.
      repeat (destruct Hin as [Hin|Hin];
              [inversion Hin; subst; try reflexivity|]);
        contradiction. }
    subst args'. reflexivity.
Defined.

End MoreScenarios.
